(** * DeBros CLI: the deployment registry of [services/network.ts]

    A shallow embedding of the registry functions of the network service
    ([checkAppNameAvailability], [storeAppData], [announceDeployment],
    [getAllApps], [getAppVersions], [rollbackToVersion], [stopApplication],
    [startApplication], [deleteApplication]) and of the [upload] command,
    followed by the properties of the event log, of the materialized view
    and of the commands. *)

From Stdlib Require Import List String Ascii ZArith Lia Bool Arith.
From Stdlib Require Import Sorting.Sorted Sorting.Permutation.
Import ListNotations.

Local Open Scope string_scope.
Local Open Scope list_scope.
Local Open Scope Z_scope.

(** ** Data model *)

(** [status: 'running' | 'stopped' | 'unknown']. *)
Inductive Status : Type := running | stopped | unknown.

(** [interface AppData].  The [timestamp] property is the ISO-8601 string
    written by [new Date().toISOString()]; every use in the service goes
    through [new Date(timestamp)], so the field holds the instant that string
    denotes, in epoch milliseconds.  [domain] is optional in the interface.
    [isRollback] is not declared by the interface: the stored values are
    JavaScript objects, and the field says whether an object carries such a
    property ([None]: the property is absent). *)
Record AppData : Type := mkAppData {
  appName : string;
  cid : string;
  version : string;
  timestamp : Z;
  deployed : bool;
  domain : option string;
  status : Status;
  isRollback : option bool
}.

(** The element type of the array returned by [getAppVersions]. *)
Record VersionEntry : Type := mkVersion {
  tag : string;
  vcid : string;
  vtimestamp : Z;
  vdeployed : bool
}.

(** ** JavaScript [Map<string, AppData>]: insertion-ordered, [set] on a key
    that is present replaces the value in place. *)
Module JsMap.

Definition t : Type := list (string * AppData).

Definition empty : t := [].

Fixpoint get (k : string) (m : t) : option AppData :=
  match m with
  | [] => None
  | (k', v) :: m' => if String.eqb k' k then Some v else get k m'
  end.

Fixpoint set (k : string) (v : AppData) (m : t) : t :=
  match m with
  | [] => [(k, v)]
  | (k', v') :: m' =>
      if String.eqb k' k then (k, v) :: m' else (k', v') :: set k v m'
  end.

Definition values (m : t) : list AppData := map snd m.

End JsMap.

(** ** Registry materializer: the pure part of [getAllApps] *)

(** The callback of [entries.reverse().forEach]: the entry is stored when
    [!appMap.has(appData.appName)] (the lookup yields nothing) or when the
    stored entry is strictly older. *)
Definition getAllApps_step (appMap : JsMap.t) (appData : AppData) : JsMap.t :=
  match JsMap.get (appName appData) appMap with
  | None => JsMap.set (appName appData) appData appMap
  | Some cur =>
      if timestamp cur <? timestamp appData
      then JsMap.set (appName appData) appData appMap
      else appMap
  end.

Definition getAllApps_map (entries : list AppData) : JsMap.t :=
  fold_left getAllApps_step (rev entries) JsMap.empty.

(** [Array.from(appMap.values())]. *)
Definition getAllApps_pure (entries : list AppData) : list AppData :=
  JsMap.values (getAllApps_map entries).

(** [apps.find(app => app.appName === appName)]. *)
Definition find_app (name : string) (apps : list AppData) : option AppData :=
  find (fun app => String.eqb (appName app) name) apps.

(** ** Version listing: the pure part of [getAppVersions] *)

Definition toVersion (data : AppData) : VersionEntry :=
  {| tag := version data; vcid := cid data;
     vtimestamp := timestamp data; vdeployed := deployed data |}.

(** The comparator [(a, b) => new Date(b.timestamp).getTime() -
    new Date(a.timestamp).getTime()]. *)
Definition byTimestampDesc (a b : VersionEntry) : Z :=
  vtimestamp b - vtimestamp a.

(** [Array.prototype.sort] is a stable sort: [a] stays before [b] unless the
    comparator is positive.  Stable insertion from the right computes it. *)
Fixpoint sort_insert {A : Type} (cmp : A -> A -> Z) (x : A) (l : list A)
  : list A :=
  match l with
  | [] => [x]
  | y :: l' => if cmp x y <=? 0 then x :: y :: l' else y :: sort_insert cmp x l'
  end.

Fixpoint js_sort {A : Type} (cmp : A -> A -> Z) (l : list A) : list A :=
  match l with
  | [] => []
  | x :: l' => sort_insert cmp x (js_sort cmp l')
  end.

(** [Array.prototype.findIndex], with [None] for [-1]. *)
Fixpoint findIndex {A : Type} (p : A -> bool) (l : list A) : option nat :=
  match l with
  | [] => None
  | x :: l' =>
      if p x then Some O
      else match findIndex p l' with Some i => Some (S i) | None => None end
  end.

Definition setDeployed (b : bool) (v : VersionEntry) : VersionEntry :=
  {| tag := tag v; vcid := vcid v; vtimestamp := vtimestamp v; vdeployed := b |}.

(** [versions[i].deployed = b]. *)
Fixpoint setDeployedAt (i : nat) (b : bool) (l : list VersionEntry)
  : list VersionEntry :=
  match l, i with
  | [], _ => []
  | v :: l', O => setDeployed b v :: l'
  | v :: l', S i' => v :: setDeployedAt i' b l'
  end.

Definition is_app (name : string) (data : AppData) : bool :=
  String.eqb (appName data) name.

(** The array after [.filter(...).map(...)] and [.sort(...)]. *)
Definition sortedVersions (name : string) (entries : list AppData)
  : list VersionEntry :=
  js_sort byTimestampDesc (map toVersion (filter (is_app name) entries)).

(** "Mark only the latest version as deployed if any are deployed". *)
Definition markLatestDeployed (versions : list VersionEntry)
  : list VersionEntry :=
  match findIndex vdeployed versions with
  | Some latestDeployedIndex =>
      setDeployedAt latestDeployedIndex true (map (setDeployed false) versions)
  | None => versions
  end.

Definition getAppVersions_pure (name : string) (entries : list AppData)
  : list VersionEntry :=
  markLatestDeployed (sortedVersions name entries).

(** ** Strings *)

(** [s.endsWith(suffix)]. *)
Definition endsWith (s suffix : string) : bool :=
  let n := String.length s in
  let m := String.length suffix in
  (m <=? n)%nat && String.eqb (substring (n - m) m s) suffix.

(** [s.split(".")[0]]: the part of [s] before its first dot. *)
Fixpoint split_dot_head (s : string) : string :=
  match s with
  | EmptyString => EmptyString
  | String c s' =>
      if Ascii.eqb c "."%char then EmptyString else String c (split_dot_head s')
  end.

Definition lower_ascii (c : ascii) : ascii :=
  let n := nat_of_ascii c in
  if ((65 <=? n) && (n <=? 90))%nat then ascii_of_nat (n + 32) else c.

Fixpoint lower (s : string) : string :=
  match s with
  | EmptyString => EmptyString
  | String c s' => String (lower_ascii c) (lower s')
  end.

(** [s.replace(/\.debros\.sol$/i, '')]. *)
Definition strip_debros_sol (s : string) : string :=
  if endsWith (lower s) ".debros.sol"
  then substring 0 (String.length s - 11) s
  else s.

(** [x || dflt] on an optional string: [undefined] and [''] are falsy. *)
Definition or_else (x : option string) (dflt : string) : string :=
  match x with
  | Some s => if String.eqb s "" then dflt else s
  | None => dflt
  end.

(** [if (x)] on an optional string. *)
Definition truthy (x : option string) : bool :=
  match x with
  | Some s => negb (String.eqb s "")
  | None => false
  end.

(** A default parameter value [p = dflt]. *)
Definition default_arg {A : Type} (x : option A) (dflt : A) : A :=
  match x with Some a => a | None => dflt end.

(** ** The world the commands act on *)

(** The JSON payloads handed to [pubsub.publish]. *)
Inductive Message : Type :=
| MDeployment (m_cid m_appName m_version m_domain : string)
    (m_isRollback : option bool) (m_timestamp : Z)
| MAction (m_action m_appName : string) (m_force : option bool)
    (m_version m_cid : option string) (m_timestamp : Z)
| MAppDataUpdate (m_appData : AppData) (m_timestamp : Z).

(** What a command does to the outside, in the order it does it. *)
Inductive Effect : Type :=
| EAppend (e : AppData)
| EPublish (topic : string) (m : Message).

(** [log]: the [application_data] feed, in store order.  [trace]: the appends
    and publishes performed so far, oldest first.  [ticks]: how many times the
    wall clock has been read. *)
Record World : Type := mkWorld {
  log : list AppData;
  trace : list Effect;
  ticks : nat
}.

(** The collaborators of [@debros/network] and the configuration: whether
    [initIpfs] succeeds, whether [getLibp2p] returns a handle, whether the
    feed can be opened and appended to, on which topics a publish succeeds,
    the error each of them throws, the wall clock, and
    [config.defaultDomain]. *)
Record Env : Type := mkEnv {
  ipfs_ok : bool;
  ipfs_err : string;
  libp2p_up : bool;
  db_ok : bool;
  db_err : string;
  add_ok : bool;
  add_err : string;
  publish_ok : string -> bool;
  publish_err : string;
  clock : nat -> Z;
  defaultDomain : string
}.

(** A computation returns, throws (the thrown value is kept as its message,
    [error instanceof Error ? error.message : String(error)]), or ends the
    process with [process.exit(code)]. *)
Inductive Outcome (A : Type) : Type :=
| Ok (a : A)
| Throw (msg : string)
| Exit (code : Z).

Arguments Ok {A} a.
Arguments Throw {A} msg.
Arguments Exit {A} code.

Definition M (A : Type) : Type := World -> Outcome A * World.

Definition ret {A : Type} (a : A) : M A := fun w => (Ok a, w).

Definition throw {A : Type} (msg : string) : M A := fun w => (Throw msg, w).

Definition exit {A : Type} (code : Z) : M A := fun w => (Exit code, w).

Definition bind {A B : Type} (m : M A) (k : A -> M B) : M B :=
  fun w =>
    match m w with
    | (Ok a, w') => k a w'
    | (Throw msg, w') => (Throw msg, w')
    | (Exit code, w') => (Exit code, w')
    end.

(** [try { m } catch (error) { h error }]. *)
Definition try_catch {A : Type} (m : M A) (h : string -> M A) : M A :=
  fun w =>
    match m w with
    | (Throw msg, w') => h msg w'
    | r => r
    end.

Declare Scope cmd_scope.
Delimit Scope cmd_scope with cmd.
Notation "x <- c1 ;; c2" := (bind c1 (fun x => c2))
  (at level 61, c1 at next level, right associativity) : cmd_scope.
Notation "c1 ;; c2" := (bind c1 (fun _ => c2))
  (at level 61, right associativity) : cmd_scope.
Local Open Scope cmd_scope.

(** ** Primitives of the collaborators *)

Definition initIpfs (env : Env) : M unit :=
  if ipfs_ok env then ret tt else throw (ipfs_err env).

(** Releases the node; nothing of the world modelled here changes. *)
Definition stopIpfs : M unit := ret tt.

(** [getLibp2p()]: [true] for a handle, [false] for [null]. *)
Definition getLibp2p (env : Env) : M bool := ret (libp2p_up env).

(** [Date.now()] and [new Date()]: one reading of the wall clock. *)
Definition dateNow (env : Env) : M Z :=
  fun w =>
    (Ok (clock env (ticks w)),
     {| log := log w; trace := trace w; ticks := S (ticks w) |}).

(** [libp2p.services.pubsub.publish(topic, bytes)]. *)
Definition publish (env : Env) (topic : string) (m : Message) : M unit :=
  fun w =>
    if publish_ok env topic
    then (Ok tt, {| log := log w;
                    trace := trace w ++ [EPublish topic m];
                    ticks := ticks w |})
    else (Throw (publish_err env), w).

(** [db.iterator({ limit: -1 }).collect()], mapped to the entries' values. *)
Definition db_collect : M (list AppData) := fun w => (Ok (log w), w).

(** [db.add(appData)]. *)
Definition db_add (env : Env) (appData : AppData) : M unit :=
  fun w =>
    if add_ok env
    then (Ok tt, {| log := log w ++ [appData];
                    trace := trace w ++ [EAppend appData];
                    ticks := ticks w |})
    else (Throw (add_err env), w).

(** ** The network service *)

Definition getApplicationDataDB (env : Env) : M unit :=
  try_catch
    (initIpfs env ;;
     if db_ok env then ret tt else throw (db_err env))
    (fun error => throw error).

Definition checkAppNameAvailability (env : Env) (name : string) : M bool :=
  try_catch
    (getApplicationDataDB env ;;
     entries <- db_collect ;;
     let existingApps :=
       filter (fun n => String.eqb n name) (map appName entries) in
     let isAvailable := (List.length existingApps =? 0)%nat in
     stopIpfs ;;
     ret isAvailable)
    (fun error => throw error).

Definition storeAppData (env : Env) (appData : AppData) : M bool :=
  try_catch
    (getApplicationDataDB env ;;
     db_add env appData ;;
     now <- dateNow env ;;
     let message := MAppDataUpdate appData now in
     libp2p <- getLibp2p env ;;
     (if libp2p then publish env "debros-app-data" message else ret tt) ;;
     stopIpfs ;;
     ret true)
    (fun error => throw error).

Definition announceDeployment (env : Env) (cid0 name : string)
  (version0 domain0 : option string) : M bool :=
  let version1 := default_arg version0 "latest" in
  let domain1 := default_arg domain0 "" in
  try_catch
    (initIpfs env ;;
     libp2p <- getLibp2p env ;;
     if negb libp2p then throw "LibP2P is not initialized" else
     let appDomain := or_else (Some domain1) (name ++ "." ++ defaultDomain env) in
     let appDomain :=
       if negb (endsWith appDomain ("." ++ defaultDomain env)%string)
       then (split_dot_head appDomain ++ "." ++ defaultDomain env)%string
       else appDomain in
     now <- dateNow env ;;
     let message := MDeployment cid0 name version1 appDomain None now in
     publish env "debros-deploy" message ;;
     stamp <- dateNow env ;;
     storeAppData env
       {| appName := name; cid := cid0; version := version1;
          timestamp := stamp; deployed := true; domain := Some appDomain;
          status := running; isRollback := None |} ;;
     stopIpfs ;;
     ret true)
    (fun error => throw error).

Definition getAllApps (env : Env) : M (list AppData) :=
  try_catch
    (getApplicationDataDB env ;;
     entries <- db_collect ;;
     let apps := getAllApps_pure entries in
     stopIpfs ;;
     ret apps)
    (fun error => throw error).

Definition getAppVersions (env : Env) (name : string) : M (list VersionEntry) :=
  try_catch
    (getApplicationDataDB env ;;
     entries <- db_collect ;;
     let versions := getAppVersions_pure name entries in
     stopIpfs ;;
     ret versions)
    (fun error => throw error).

(** [{ success, message?, version?, cid? }]. *)
Record Result : Type := mkResult {
  success : bool;
  message : option string;
  r_version : option string;
  r_cid : option string
}.

Definition failure (msg : string) : Result :=
  {| success := false; message := Some msg; r_version := None; r_cid := None |}.

Definition succeeded : Result :=
  {| success := true; message := None; r_version := None; r_cid := None |}.

(** The choice of [targetVersion] in [rollbackToVersion]: the version to
    redeploy, or the result returned early. *)
Definition rollbackTarget (versionTag : option string)
  (versions : list VersionEntry) : Result + VersionEntry :=
  if truthy versionTag then
    let wanted := default_arg versionTag "" in
    match find (fun v => String.eqb (tag v) wanted) versions with
    | Some targetVersion => inr targetVersion
    | None => inl (failure ("Version " ++ wanted ++ " not found"))
    end
  else
    let otherVersions :=
      js_sort byTimestampDesc (filter (fun v => negb (vdeployed v)) versions) in
    match otherVersions with
    | [] => inl (failure "No previous versions found to rollback to")
    | targetVersion :: _ => inr targetVersion
    end.

Definition rollbackToVersion (env : Env) (name : string)
  (versionTag domain0 : option string) (force : option bool) : M Result :=
  try_catch
    (initIpfs env ;;
     libp2p <- getLibp2p env ;;
     if negb libp2p then throw "LibP2P is not initialized" else
     versions <- getAppVersions env name ;;
     if (List.length versions =? 0)%nat
     then ret (failure ("No versions found for " ++ name))
     else
       match rollbackTarget versionTag versions with
       | inl early => ret early
       | inr targetVersion =>
           let appDomain := or_else domain0 (name ++ "." ++ defaultDomain env) in
           now <- dateNow env ;;
           let message :=
             MDeployment (vcid targetVersion) name (tag targetVersion)
               appDomain (Some true) now in
           publish env "debros-deploy" message ;;
           stamp <- dateNow env ;;
           storeAppData env
             {| appName := name; cid := vcid targetVersion;
                version := tag targetVersion; timestamp := stamp;
                deployed := true; domain := Some appDomain;
                status := running; isRollback := None |} ;;
           stopIpfs ;;
           ret {| success := true; message := None;
                  r_version := Some (tag targetVersion);
                  r_cid := Some (vcid targetVersion) |}
       end)
    (fun error => ret (failure error)).

(** [{ ...appData, status: 'stopped', timestamp }]. *)
Definition stoppedClone (appData : AppData) (stamp : Z) : AppData :=
  {| appName := appName appData; cid := cid appData;
     version := version appData; timestamp := stamp;
     deployed := deployed appData; domain := domain appData;
     status := stopped; isRollback := isRollback appData |}.

Definition stopApplication (env : Env) (name : string) (force : option bool)
  : M Result :=
  let force1 := default_arg force false in
  try_catch
    (initIpfs env ;;
     libp2p <- getLibp2p env ;;
     if negb libp2p then throw "LibP2P is not initialized" else
     now <- dateNow env ;;
     let message := MAction "stop" name (Some force1) None None now in
     publish env "debros-app-actions" message ;;
     apps <- getAllApps env ;;
     match find_app name apps with
     | Some appData =>
         stamp <- dateNow env ;;
         storeAppData env (stoppedClone appData stamp) ;;
         ret tt
     | None => ret tt
     end ;;
     stopIpfs ;;
     ret succeeded)
    (fun error => ret (failure error)).

Definition startApplication (env : Env) (name : string)
  (versionTag : option string) : M Result :=
  let versionTag1 := default_arg versionTag "latest" in
  try_catch
    (initIpfs env ;;
     libp2p <- getLibp2p env ;;
     if negb libp2p then throw "LibP2P is not initialized" else
     versions <- getAppVersions env name ;;
     if (List.length versions =? 0)%nat
     then ret (failure ("No versions found for " ++ name))
     else
       match find (fun v => String.eqb (tag v) versionTag1) versions with
       | None => ret (failure ("Version " ++ versionTag1 ++ " not found"))
       | Some targetVersion =>
           now <- dateNow env ;;
           let message :=
             MAction "start" name None (Some versionTag1)
               (Some (vcid targetVersion)) now in
           publish env "debros-app-actions" message ;;
           apps <- getAllApps env ;;
           let appData := find_app name apps in
           let appDomain :=
             or_else (match appData with Some a => domain a | None => None end)
               (name ++ "." ++ defaultDomain env) in
           stamp <- dateNow env ;;
           storeAppData env
             {| appName := name; cid := vcid targetVersion;
                version := versionTag1; timestamp := stamp;
                deployed := true; domain := Some appDomain;
                status := running; isRollback := None |} ;;
           stopIpfs ;;
           ret succeeded
       end)
    (fun error => ret (failure error)).

Definition deleteApplication (env : Env) (name : string) (force : option bool)
  : M Result :=
  let force1 := default_arg force false in
  try_catch
    (initIpfs env ;;
     libp2p <- getLibp2p env ;;
     if negb libp2p then throw "LibP2P is not initialized" else
     now <- dateNow env ;;
     let message := MAction "delete" name (Some force1) None None now in
     publish env "debros-app-actions" message ;;
     apps <- getAllApps env ;;
     let appData := find_app name apps in
     stopIpfs ;;
     ret succeeded)
    (fun error => ret (failure error)).

(** ** The commands of the CLI that reach the registry *)

(** The action of [stopCommand]: [options.force] is [true] or [undefined];
    it selects the line logged before the call and is passed on. *)
Definition stopCommand (env : Env) (name : string) (force : option bool)
  : M unit :=
  try_catch
    (result <- stopApplication env name force ;;
     ret tt)
    (fun error => exit 1).

(** The action of [uploadCommand].  [folderExists] is [fs.existsSync],
    [folderBase] is [path.basename(folderPath)]; [artifact] stands for the
    steps 1 to 4 (image build, save, upload to the blob store, node list),
    which do not touch the registry: the CID they yield or the error they
    throw. *)
Definition uploadCommand (env : Env) (folderExists : bool) (folderBase : string)
  (optName optTag optDomain : option string) (artifact : Outcome string)
  : M unit :=
  try_catch
    (if negb folderExists then exit 1 else
     let name := or_else optName folderBase in
     let tag0 := or_else optTag "latest" in
     isAppNameAvailable <- checkAppNameAvailability env name ;;
     if negb isAppNameAvailable then exit 1 else
     let subdomain := or_else optDomain name in
     let cleanSubdomain := strip_debros_sol subdomain in
     let domain1 := (cleanSubdomain ++ "." ++ defaultDomain env)%string in
     cid0 <- (fun w => (artifact, w)) ;;
     announceDeployment env cid0 name (Some tag0) (Some domain1) ;;
     ret tt)
    (fun error => exit 1).

Inductive Command : Type :=
| CUpload (folderExists : bool) (folderBase : string)
    (optName optTag optDomain : option string) (artifact : Outcome string)
| CRollback (name : string) (versionTag domain0 : option string)
    (force : option bool)
| CStop (name : string) (force : option bool)
| CStart (name : string) (versionTag : option string)
| CDelete (name : string) (force : option bool)
| CVersions (name : string).

(** One invocation of the CLI: the world it leaves behind. *)
Definition exec (env : Env) (c : Command) (w : World) : World :=
  match c with
  | CUpload fe fb n t d a => snd (uploadCommand env fe fb n t d a w)
  | CRollback n v d f => snd (rollbackToVersion env n v d f w)
  | CStop n f => snd (stopCommand env n f w)
  | CStart n v => snd (startApplication env n v w)
  | CDelete n f => snd (deleteApplication env n f w)
  | CVersions n => snd (getAppVersions env n w)
  end.

(** A history of invocations, each in the environment it met. *)
Fixpoint run (history : list (Env * Command)) (w : World) : World :=
  match history with
  | [] => w
  | (env, c) :: rest => run rest (exec env c w)
  end.

(** ** Vocabulary of the statements *)

(** The effects a computation added to the trace. *)
Definition added (w w' : World) (new : list Effect) : Prop :=
  trace w' = trace w ++ new.

(** The two topics commands announce on. *)
Definition command_topic (topic : string) : bool :=
  String.eqb topic "debros-deploy" || String.eqb topic "debros-app-actions".

(** Position [i] of [new] holds an append. *)
Definition append_at (new : list Effect) (i : nat) : Prop :=
  exists e, nth_error new i = Some (EAppend e).

(** Position [j] of [new] holds a publish on a command topic. *)
Definition broadcast_at (new : list Effect) (j : nat) : Prop :=
  exists topic m,
    nth_error new j = Some (EPublish topic m) /\ command_topic topic = true.

Definition deployedCount (versions : list VersionEntry) : nat :=
  List.length (filter vdeployed versions).

(** A version entry without its [deployed] flag. *)
Definition versionKey (v : VersionEntry) : string * string * Z :=
  (tag v, vcid v, vtimestamp v).

(** Every collaborator is available. *)
Definition available (env : Env) : Prop :=
  ipfs_ok env = true /\ libp2p_up env = true /\ db_ok env = true /\
  add_ok env = true /\ forall topic, publish_ok env topic = true.

(** The node and the feed can be reached (enough for reading). *)
Definition readable (env : Env) : Prop :=
  ipfs_ok env = true /\ libp2p_up env = true /\ db_ok env = true.

(** Every binding is filed under the name of its value, once. *)
Definition keyed (m : JsMap.t) : Prop :=
  (forall k v, In (k, v) m -> appName v = k) /\ NoDup (map fst m).

(** [e], at position [i] of the log, is the event the materializer must
    select for [name]: no event of the application is newer, and those
    appended after it are strictly older. *)
Definition selected (name : string) (entries : list AppData) (i : nat)
  (e : AppData) : Prop :=
  nth_error entries i = Some e /\ appName e = name /\
  (forall j e', nth_error entries j = Some e' -> appName e' = name ->
                timestamp e' <= timestamp e) /\
  (forall j e', (i < j)%nat -> nth_error entries j = Some e' ->
                appName e' = name -> timestamp e' < timestamp e).

(** A list of versions is in descending order of timestamp. *)
Definition descending (versions : list VersionEntry) : Prop :=
  StronglySorted (fun a b => vtimestamp b <= vtimestamp a) versions.

(** What one state-changing command may add to the trace: nothing; its
    announcement on a command topic; the announcement and the append; or
    both followed by the update published on [debros-app-data]. *)
Inductive command_effects : list Effect -> Prop :=
| effects_none : command_effects []
| effects_announced topic m :
    command_topic topic = true -> command_effects [EPublish topic m]
| effects_stored topic m e :
    command_topic topic = true -> command_effects [EPublish topic m; EAppend e]
| effects_notified topic m e m' :
    command_topic topic = true ->
    command_effects [EPublish topic m; EAppend e; EPublish "debros-app-data" m'].

(** The events appended by a run of effects. *)
Fixpoint appends_of (new : list Effect) : list AppData :=
  match new with
  | [] => []
  | EAppend e :: rest => e :: appends_of rest
  | EPublish _ _ :: rest => appends_of rest
  end.

Definition effects_ok (w w' : World) : Prop :=
  exists new, added w w' new /\ command_effects new /\
              log w' = log w ++ appends_of new.

(** [w'] is the world one state-changing command leaves when started in
    [w]. *)
Inductive state_changing (env : Env) (w : World) : World -> Prop :=
| by_announce cid0 name version0 domain0 :
    state_changing env w (snd (announceDeployment env cid0 name version0 domain0 w))
| by_rollback name versionTag domain0 force :
    state_changing env w (snd (rollbackToVersion env name versionTag domain0 force w))
| by_start name versionTag :
    state_changing env w (snd (startApplication env name versionTag w))
| by_stop name force :
    state_changing env w (snd (stopApplication env name force w)).

(** The name is taken: some event of the log bears it. *)
Definition used (name : string) (entries : list AppData) : Prop :=
  exists e, In e entries /\ appName e = name.

(** ** Concrete worlds *)

Definition env0 : Env :=
  {| ipfs_ok := true; ipfs_err := "ipfs unavailable";
     libp2p_up := true;
     db_ok := true; db_err := "database unavailable";
     add_ok := true; add_err := "append failed";
     publish_ok := fun _ => true; publish_err := "publish failed";
     clock := fun n => 1000 + Z.of_nat n;
     defaultDomain := "debros.sol" |}.

(** As [env0], but nobody can be reached on the [debros-app-data] topic. *)
Definition env_mute : Env :=
  {| ipfs_ok := true; ipfs_err := "ipfs unavailable";
     libp2p_up := true;
     db_ok := true; db_err := "database unavailable";
     add_ok := true; add_err := "append failed";
     publish_ok := fun topic => negb (String.eqb topic "debros-app-data");
     publish_err := "publish failed";
     clock := fun n => 1000 + Z.of_nat n;
     defaultDomain := "debros.sol" |}.

(** As [env0], but no publish succeeds. *)
Definition env_deaf : Env :=
  {| ipfs_ok := true; ipfs_err := "ipfs unavailable";
     libp2p_up := true;
     db_ok := true; db_err := "database unavailable";
     add_ok := true; add_err := "append failed";
     publish_ok := fun _ => false; publish_err := "publish failed";
     clock := fun n => 1000 + Z.of_nat n;
     defaultDomain := "debros.sol" |}.

Definition blog_v1 : AppData :=
  {| appName := "blog"; cid := "cid1"; version := "v1"; timestamp := 10;
     deployed := true; domain := Some "blog.debros.sol"; status := running;
     isRollback := None |}.

Definition blog_v2 : AppData :=
  {| appName := "blog"; cid := "cid2"; version := "v2"; timestamp := 20;
     deployed := true; domain := Some "blog.debros.sol"; status := running;
     isRollback := None |}.

(** An event whose writer did not claim it deployed. *)
Definition blog_draft : AppData :=
  {| appName := "blog"; cid := "cid0"; version := "v0"; timestamp := 5;
     deployed := false; domain := None; status := unknown;
     isRollback := None |}.

Definition world_of (entries : list AppData) : World :=
  {| log := entries; trace := []; ticks := 0 |}.

Definition w_empty : World := world_of [].

Definition w_blog : World := world_of [blog_v1; blog_v2].

(** ** Further commands of the CLI *)

(** The action of [rollbackCommand]: the domain handed on is always
    [`${appName}.${config.defaultDomain}`]. *)
Definition rollbackCommand (env : Env) (name : string)
  (versionTag : option string) (force : option bool) : M unit :=
  try_catch
    (let domain1 := (name ++ "." ++ defaultDomain env)%string in
     result <- rollbackToVersion env name versionTag (Some domain1) force ;;
     ret tt)
    (fun error => exit 1).

(** The action of [startCommand]: [options.version || 'latest']. *)
Definition startCommand (env : Env) (name : string)
  (optVersion : option string) : M unit :=
  try_catch
    (let versionTag := or_else optVersion "latest" in
     result <- startApplication env name (Some versionTag) ;;
     ret tt)
    (fun error => exit 1).

(** Every event of [name] in [entries] is older than [e], or as old. *)
Definition not_older (name : string) (e : AppData) (entries : list AppData)
  : Prop :=
  forall e', In e' entries -> appName e' = name -> timestamp e' <= timestamp e.

(** Every event of [name] in [entries] is strictly older than [e]. *)
Definition newest (name : string) (e : AppData) (entries : list AppData)
  : Prop :=
  forall e', In e' entries -> appName e' = name -> timestamp e' < timestamp e.

(** ** Listening for deployments *)

(** The [type] property of a payload. *)
Definition message_type (m : Message) : string :=
  match m with
  | MDeployment _ _ _ _ _ _ => "deployment"
  | MAction _ _ _ _ _ _ => "application-action"
  | MAppDataUpdate _ _ => "app-data-update"
  end.

(** The argument of the callback of [listenForDeployments]. *)
Record Announcement : Type := mkAnnouncement {
  a_cid : string;
  a_appName : string;
  a_version : string;
  a_domain : string
}.

(** The message handler installed by [listenForDeployments], on a received
    payload: what it hands to the callback, if anything.  Only payloads on
    [debros-deploy] whose [type] is "deployment" get through; the domain
    falls back to [`${message.appName}.${config.defaultDomain}`]. *)
Definition deploymentHandler (env : Env) (topic : string) (m : Message)
  : option Announcement :=
  if String.eqb topic "debros-deploy" then
    if String.eqb (message_type m) "deployment" then
      match m with
      | MDeployment c a v d _ _ =>
          Some {| a_cid := c; a_appName := a; a_version := v;
                  a_domain := or_else (Some d) (a ++ "." ++ defaultDomain env) |}
      | _ => None
      end
    else None
  else None.

(** An application uploaded under a custom subdomain. *)
Definition blog_journal : AppData :=
  {| appName := "blog"; cid := "cid2"; version := "v2"; timestamp := 20;
     deployed := true; domain := Some "journal.debros.sol"; status := running;
     isRollback := None |}.

Definition w_journal : World := world_of [blog_v1; blog_journal].

(** Every message of [new] published on [debros-deploy] gets through the
    handler, and what the handler hands over agrees with every event
    appended in [new]; no other message gets through. *)
Definition delivered (env : Env) (name : string) (new : list Effect) : Prop :=
  forall topic m,
    In (EPublish topic m) new ->
    match deploymentHandler env topic m with
    | Some a =>
        topic = "debros-deploy" /\ a_appName a = name /\
        forall e, In (EAppend e) new ->
                  appName e = a_appName a /\ cid e = a_cid a /\
                  version e = a_version a /\ domain e = Some (a_domain a)
    | None => topic <> "debros-deploy"
    end.

(** No message of [new] gets through the handler. *)
Definition ignored (env : Env) (new : list Effect) : Prop :=
  forall topic m,
    In (EPublish topic m) new -> deploymentHandler env topic m = None.


(** ** The logger of [utils/logger.ts] *)

Inductive LogLevel : Type := DEBUG | INFO | WARN | ERROR.

(** The numeric value of the enum member. *)
Definition level_value (l : LogLevel) : nat :=
  match l with DEBUG => 0 | INFO => 1 | WARN => 2 | ERROR => 3 end.

Definition is_level (envLevel : option string) (word : string) : bool :=
  match envLevel with Some s => String.eqb s word | None => false end.

(** [getLogLevel()]: [envVar] is [process.env.DEBROS_LOG_LEVEL].  On the
    four words compared here, lowering the ASCII letters decides as
    [toLowerCase()] does. *)
Definition getLogLevel (envVar : option string) (currentLogLevel : LogLevel)
  : LogLevel :=
  let envLevel := option_map lower envVar in
  if is_level envLevel "debug" then DEBUG
  else if is_level envLevel "info" then INFO
  else if is_level envLevel "warn" then WARN
  else if is_level envLevel "error" then ERROR
  else currentLogLevel.

(** The methods of [logger]. *)
Inductive LogKind : Type := KDebug | KInfo | KSuccess | KWarn | KError | KRaw.

(** What reaches the terminal: the spinner starting to spin, ending (by
    [stop], [succeed] or [fail]), and console lines ([true]: on stderr). *)
Inductive Screen : Type :=
| SpinStart (text : string)
| SpinStop
| SpinSucceed (text : string)
| SpinFail (text : string)
| Print (stderr : bool) (line : string).

(** The module state: [currentLogLevel], the text of the live spinner
    ([None]: [spinner] is [null]), and what was put on the terminal, oldest
    first. *)
Record Terminal : Type := mkTerminal {
  currentLogLevel : LogLevel;
  spinner : option string;
  screen : list Screen
}.

Definition terminal0 : Terminal :=
  {| currentLogLevel := INFO; spinner := None; screen := [] |}.

Definition setLogLevel (level : LogLevel) (t : Terminal) : Terminal :=
  {| currentLogLevel := level; spinner := spinner t; screen := screen t |}.

Definition startSpinner (text : string) (t : Terminal) : Terminal :=
  {| currentLogLevel := currentLogLevel t;
     spinner := Some text;
     screen := screen t ++
               (match spinner t with Some _ => [SpinStop] | None => [] end) ++
               [SpinStart text] |}.

Definition updateSpinner (text : string) (t : Terminal) : Terminal :=
  match spinner t with
  | Some _ => {| currentLogLevel := currentLogLevel t; spinner := Some text;
                 screen := screen t |}
  | None => t
  end.

(** [stopSpinner(text?, success = true)]. *)
Definition stopSpinner (text : option string) (success0 : option bool)
  (t : Terminal) : Terminal :=
  let success1 := default_arg success0 true in
  match spinner t with
  | None => t
  | Some _ =>
      {| currentLogLevel := currentLogLevel t;
         spinner := None;
         screen := screen t ++
           [ if success1 && truthy text then SpinSucceed (default_arg text "")
             else if negb success1 && truthy text
                  then SpinFail (default_arg text "")
                  else SpinStop ] |}
  end.

(** The level a method compares [getLogLevel()] with; [raw] compares
    nothing. *)
Definition threshold (kind : LogKind) : option LogLevel :=
  match kind with
  | KDebug => Some DEBUG
  | KInfo => Some INFO
  | KSuccess => Some INFO
  | KWarn => Some WARN
  | KError => Some ERROR
  | KRaw => None
  end.

Definition prints (envVar : option string) (kind : LogKind) (t : Terminal)
  : bool :=
  match threshold kind with
  | Some level =>
      (level_value (getLogLevel envVar (currentLogLevel t)) <=? level_value level)%nat
  | None => true
  end.

(** The console line, colours left out. *)
Definition log_line (kind : LogKind) (message0 : string) : Screen :=
  match kind with
  | KDebug => Print false ("[DEBUG] " ++ message0)
  | KInfo => Print false ("[INFO] " ++ message0)
  | KSuccess => Print false ("[SUCCESS] " ++ message0)
  | KWarn => Print false ("[WARN] " ++ message0)
  | KError => Print true ("[ERROR] " ++ message0)
  | KRaw => Print false message0
  end.

(** [logger.debug], [.info], [.success], [.warn], [.error] and [.raw]: the
    live spinner is stopped for the line and started again. *)
Definition logger (envVar : option string) (kind : LogKind) (message0 : string)
  (t : Terminal) : Terminal :=
  if prints envVar kind t then
    {| currentLogLevel := currentLogLevel t;
       spinner := spinner t;
       screen := screen t ++
                 (match spinner t with Some _ => [SpinStop] | None => [] end) ++
                 [log_line kind message0] ++
                 (match spinner t with
                  | Some text => [SpinStart text]
                  | None => []
                  end) |}
  else t.

(** The calls a program makes on the module. *)
Inductive LoggerCall : Type :=
| CallSetLogLevel (level : LogLevel)
| CallStartSpinner (text : string)
| CallUpdateSpinner (text : string)
| CallStopSpinner (text : option string) (success0 : option bool)
| CallLog (kind : LogKind) (message0 : string).

Definition logger_call (envVar : option string) (c : LoggerCall) (t : Terminal)
  : Terminal :=
  match c with
  | CallSetLogLevel level => setLogLevel level t
  | CallStartSpinner text => startSpinner text t
  | CallUpdateSpinner text => updateSpinner text t
  | CallStopSpinner text success0 => stopSpinner text success0 t
  | CallLog kind message0 => logger envVar kind message0 t
  end.

Definition logger_calls (envVar : option string) (calls : list LoggerCall)
  (t : Terminal) : Terminal :=
  fold_left (fun acc c => logger_call envVar c acc) calls t.

(** Replaying what was put on the terminal, starting with a spinner that
    spins or not: [Some spin] if no spinner was started while one was
    spinning, none was ended while none was spinning, and no line was
    printed while one was spinning; [spin] says whether one spins at the
    end. *)
Fixpoint replay (spin : bool) (events : list Screen) : option bool :=
  match events with
  | [] => Some spin
  | SpinStart _ :: rest => if spin then None else replay true rest
  | Print _ _ :: rest => if spin then None else replay false rest
  | _ :: rest => if spin then replay false rest else None
  end.

Definition is_some {A : Type} (x : option A) : bool :=
  match x with Some _ => true | None => false end.

(** ** The configuration of [utils/config.ts] *)

#[local] Unset Elimination Schemes.

(** JSON values, as the configuration file holds them. *)
Inductive Json : Type :=
| JNull
| JBool (b : bool)
| JNum (n : Z)
| JStr (s : string)
| JArr (items : list Json)
| JObj (members : list (string * Json)).

#[local] Set Elimination Schemes.

(** An object by its own enumerable properties: the value under each key.
    The code only spreads such objects and sets one key. *)
Definition Obj : Type := string -> option Json.

Fixpoint obj_of_list (members : list (string * Json)) : Obj :=
  fun k =>
    match members with
    | [] => None
    | (k', v) :: rest => if String.eqb k' k then Some v else obj_of_list rest k
    end.

(** [{ ...a, ...b }]. *)
Definition spread (a b : Obj) : Obj :=
  fun k => match b k with Some v => Some v | None => a k end.

(** [{ ...o, [key]: value }]. *)
Definition obj_set (key : string) (value : Json) (o : Obj) : Obj :=
  fun k => if String.eqb k key then Some value else o k.

(** The configuration file: missing; present but failing to be read or
    parsed; or parsing to a value with the given own properties.  A saved
    configuration is read back as it was written: its values are JSON. *)
Inductive ConfigFile : Type :=
| Absent
| Unreadable
| Holds (props : Obj).

(** The disk: the file, and whether [fs.writeFileSync] succeeds. *)
Record Disk : Type := mkDisk {
  file : ConfigFile;
  writable : bool
}.

(** [defaultConfig]; the two paths are [path.join(os.homedir(), ...)]. *)
Definition defaultConfig (ipfsDataPath ipnsKeysPath : string) : Obj :=
  obj_of_list
    [ ("ipfsDataPath", JStr ipfsDataPath);
      ("ipnsKeysPath", JStr ipnsKeysPath);
      ("dockerRegistry", JStr "debros");
      ("bootstrapNodes",
       JArr [ JStr "/ip4/188.166.113.190/tcp/7778/p2p/12D3KooWNWgs4WAUmE4CsxrL6uuyv1yuTzcRReMe5r7Psemsg2Z9";
              JStr "/ip4/82.208.21.140/tcp/7778/p2p/12D3KooWPUdpNX5N6dsuFAvgwfBMXUoFK2QS5sh8NpjxbfGpkSCi" ]);
      ("defaultDomain", JStr "debros.sol");
      ("solanaEndpoint", JStr "https://api.mainnet-beta.solana.com");
      ("defaultDeploymentStrategy", JStr "docker") ].

(** [saveConfig]: a failing write is logged and otherwise ignored. *)
Definition saveConfig (config : Obj) (d : Disk) : Disk :=
  if writable d then {| file := Holds config; writable := writable d |} else d.

(** [loadConfig]. *)
Definition loadConfig (defaults : Obj) (d : Disk) : Obj * Disk :=
  match file d with
  | Absent => (defaults, saveConfig defaults d)
  | Unreadable => (defaults, d)
  | Holds loadedConfig => (spread defaults loadedConfig, d)
  end.

(** [updateConfig]. *)
Definition updateConfig (defaults : Obj) (key : string) (value : Json)
  (d : Disk) : Obj * Disk :=
  let (currentConfig, d1) := loadConfig defaults d in
  let updatedConfig := obj_set key value currentConfig in
  (updatedConfig, saveConfig updatedConfig d1).

(** ** Image names of [services/docker.ts] *)

(** [s.startsWith(p)]. *)
Definition startsWith (s p : string) : bool := String.prefix p s.

(** What the code reads of an image description: [RepoTags] (possibly
    [null]) and [Id]. *)
Record Image : Type := mkImage {
  RepoTags : option (list string);
  Id : string
}.

(** [fullImageName] in [buildDockerImage]:
    [`${config.dockerRegistry}/${imageName}:${tag}`]. *)
Definition fullImageName (dockerRegistry imageName : string)
  (tag0 : option string) : string :=
  (dockerRegistry ++ "/" ++ imageName ++ ":" ++ default_arg tag0 "latest")%string.

(** The filter of [listDebrosImages]. *)
Definition debrosImages (dockerRegistry : string) (images : list Image)
  : list Image :=
  filter
    (fun image =>
       match RepoTags image with
       | Some tags =>
           existsb (fun t => startsWith t (dockerRegistry ++ "/")%string) tags
       | None => false
       end)
    images.

(** ** Domain names of the [domain] command and of [services/k3s.ts] *)

(** "Ensure domain has .sol suffix", at the head of [domain check],
    [register], [link] and [setup]. *)
Definition ensureSol (domainName : string) : string :=
  if negb (endsWith domainName ".sol")
  then (domainName ++ ".sol")%string
  else domainName.

(** [domain setup]: [domainName.split('.')[0]] of the ensured name. *)
Definition setupAppName (domainName : string) : string :=
  split_dot_head (ensureSol domainName).

(** The host of the ingress rule written by [deployToK3s]. *)
Definition ingressHost (env : Env) (name : string) : string :=
  (strip_debros_sol name ++ "." ++ defaultDomain env)%string.

(** The [url] returned by [deployToK3s]. *)
Definition deployedUrl (env : Env) (name : string) : string :=
  ("http://" ++ name ++ "." ++ defaultDomain env)%string.

(** ** The application name of the [deploy] command *)

(** Whether the character occurs in the string. *)
Fixpoint has_char (c : ascii) (s : string) : bool :=
  match s with
  | EmptyString => false
  | String x rest => Ascii.eqb x c || has_char c rest
  end.

(** [s.split(sep)[0]] for a one-character separator. *)
Fixpoint split_head (sep : ascii) (s : string) : string :=
  match s with
  | EmptyString => EmptyString
  | String c rest =>
      if Ascii.eqb c sep then EmptyString else String c (split_head sep rest)
  end.

(** [s.split(sep).pop()] for a one-character separator: what follows the
    last separator; [acc] is the piece read so far. *)
Fixpoint split_pop_from (sep : ascii) (acc s : string) : string :=
  match s with
  | EmptyString => acc
  | String c rest =>
      if Ascii.eqb c sep then split_pop_from sep EmptyString rest
      else split_pop_from sep (acc ++ String c EmptyString) rest
  end.

Definition split_pop (sep : ascii) (s : string) : string :=
  split_pop_from sep EmptyString s.

(** [appName] in [deployCommand]:
    [options.name || loadedImage.split('/').pop()?.split(':')[0] || 'app']. *)
Definition deployAppName (optName : option string) (loadedImage : string)
  : string :=
  or_else optName
    (or_else (Some (split_head ":" (split_pop "/" loadedImage))) "app").

(** ** The configuration written by the [init] command *)

(** The four [updateConfig] calls of [initCommand], in their order. *)
Definition initConfigure (defaults : Obj)
  (defaultDomain0 dockerRegistry0 strategy0 solanaEndpoint0 : Json) (d : Disk)
  : Disk :=
  let d1 := snd (updateConfig defaults "defaultDomain" defaultDomain0 d) in
  let d2 := snd (updateConfig defaults "dockerRegistry" dockerRegistry0 d1) in
  let d3 := snd (updateConfig defaults "defaultDeploymentStrategy" strategy0 d2) in
  snd (updateConfig defaults "solanaEndpoint" solanaEndpoint0 d3).


(** * Properties *)

(** ** The insertion-ordered map *)

Section JsMapFacts.

Lemma get_set_same (k : string) (v : AppData) (m : JsMap.t) :
  JsMap.get k (JsMap.set k v m) = Some v.
Proof.
  induction m as [|[k' v'] m IH]; simpl.
  - now rewrite String.eqb_refl.
  - destruct (String.eqb k' k) eqn:E; simpl.
    + now rewrite String.eqb_refl.
    + now rewrite E.
Qed.

Lemma get_set_other (k k' : string) (v : AppData) (m : JsMap.t) :
  k <> k' -> JsMap.get k' (JsMap.set k v m) = JsMap.get k' m.
Proof.
  intros Hne. induction m as [|[k0 v0] m IH]; simpl.
  - destruct (String.eqb k k') eqn:E; auto.
    apply String.eqb_eq in E. contradiction.
  - destruct (String.eqb k0 k) eqn:E; simpl.
    + apply String.eqb_eq in E. subst k0.
      destruct (String.eqb k k') eqn:E'; auto.
      apply String.eqb_eq in E'. contradiction.
    + now rewrite IH.
Qed.

Lemma set_keys (k : string) (v : AppData) (m : JsMap.t) (k' : string) :
  In k' (map fst (JsMap.set k v m)) <-> k' = k \/ In k' (map fst m).
Proof.
  induction m as [|[k0 v0] m IH]; simpl.
  - intuition.
  - destruct (String.eqb k0 k) eqn:E; simpl.
    + apply String.eqb_eq in E. subst. intuition.
    + rewrite IH. intuition.
Qed.

Lemma set_binding (k : string) (v : AppData) (m : JsMap.t) k' v' :
  In (k', v') (JsMap.set k v m) -> (k' = k /\ v' = v) \/ In (k', v') m.
Proof.
  induction m as [|[k0 v0] m IH]; simpl.
  - intros [H|[]]. inversion H. auto.
  - destruct (String.eqb k0 k) eqn:E; simpl.
    + intros [H|H]; [inversion H; auto | auto].
    + intros [H|H]; [auto | destruct (IH H); auto].
Qed.

Lemma keyed_set (v : AppData) (m : JsMap.t) :
  keyed m -> keyed (JsMap.set (appName v) v m).
Proof.
  intros [Hk Hn]. split.
  - intros k' v' Hin. apply set_binding in Hin.
    destruct Hin as [[-> ->]|Hin]; auto.
  - clear Hk. induction m as [|[k0 v0] m IH]; simpl.
    + constructor; [intros [] | constructor].
    + inversion Hn as [|? ? Hnot Hn']; subst.
      destruct (String.eqb k0 (appName v)) eqn:E; simpl.
      * apply String.eqb_eq in E. subst k0. now constructor.
      * constructor; auto. rewrite set_keys. intros [->|Hin]; auto.
        now rewrite String.eqb_refl in E.
Qed.

Lemma get_absent (k : string) (m : JsMap.t) :
  JsMap.get k m = None <-> ~ In k (map fst m).
Proof.
  induction m as [|[k0 v0] m IH]; simpl.
  - intuition.
  - destruct (String.eqb k0 k) eqn:E.
    + apply String.eqb_eq in E. subst. split; [discriminate | intros H; exfalso; auto].
    + rewrite IH. apply String.eqb_neq in E. intuition.
Qed.

(** In a keyed map the values of an application are the binding of its
    name, if any. *)
Lemma keyed_filter (name : string) (m : JsMap.t) :
  keyed m ->
  filter (is_app name) (JsMap.values m) =
  match JsMap.get name m with Some v => [v] | None => [] end.
Proof.
  unfold JsMap.values, is_app. induction m as [|[k0 v0] m IH]; intros [Hk Hn]; simpl; auto.
  inversion Hn as [|? ? Hnot Hn']; subst.
  assert (Hm : keyed m) by (split; auto; intros; apply Hk; simpl; auto).
  rewrite (Hk k0 v0) by (simpl; auto).
  destruct (String.eqb k0 name) eqn:E.
  - apply String.eqb_eq in E. subst k0. rewrite IH by assumption.
    apply get_absent in Hnot. now rewrite Hnot.
  - now apply IH.
Qed.

Lemma find_head_of_filter {A : Type} (p : A -> bool) (l : list A) :
  find p l = hd_error (filter p l).
Proof.
  induction l as [|x l IH]; simpl; auto. destruct (p x); auto.
Qed.

End JsMapFacts.

(** ** The materializer selects one event per application *)

Lemma getAllApps_map_cons (e : AppData) (entries : list AppData) :
  getAllApps_map (e :: entries) = getAllApps_step (getAllApps_map entries) e.
Proof.
  unfold getAllApps_map. simpl. now rewrite fold_left_app.
Qed.

Lemma getAllApps_map_keyed (entries : list AppData) :
  keyed (getAllApps_map entries).
Proof.
  induction entries as [|e l IH].
  - split; [intros ? ? [] | constructor].
  - rewrite getAllApps_map_cons. unfold getAllApps_step.
    destruct (JsMap.get (appName e) (getAllApps_map l)) as [cur|].
    + destruct (timestamp cur <? timestamp e); auto using keyed_set.
    + auto using keyed_set.
Qed.

Lemma getAllApps_map_selects (entries : list AppData) (name : string) :
  match JsMap.get name (getAllApps_map entries) with
  | Some e => exists i, selected name entries i e
  | None => forall e, In e entries -> appName e <> name
  end.
Proof.
  induction entries as [|e0 l IH].
  - simpl. intros e [].
  - rewrite getAllApps_map_cons. unfold getAllApps_step.
    destruct (String.eqb (appName e0) name) eqn:E.
    + apply String.eqb_eq in E. rewrite E.
      destruct (JsMap.get name (getAllApps_map l)) as [cur|] eqn:G.
      * destruct IH as [i (Hn & Ha & Hle & Hlt)].
        destruct (timestamp cur <? timestamp e0) eqn:T.
        -- rewrite get_set_same.
           apply Z.ltb_lt in T. exists O. repeat split; auto.
           ++ intros [|j] e' Hj He'; simpl in Hj.
              ** inversion Hj. lia.
              ** specialize (Hle j e' Hj He'). lia.
           ++ intros [|j] e' Hlt' Hj He'; [lia|]. simpl in Hj.
              specialize (Hle j e' Hj He'). lia.
        -- rewrite G. apply Z.ltb_ge in T. exists (S i). repeat split; auto.
           ++ intros [|j] e' Hj He'; simpl in Hj.
              ** inversion Hj. subst. lia.
              ** eauto.
           ++ intros [|j] e' Hlt' Hj He'; [lia|]. simpl in Hj.
              apply (Hlt j e'); auto. lia.
      * rewrite get_set_same.
        exists O. repeat split; auto.
        -- intros [|j] e' Hj He'; simpl in Hj.
           ++ inversion Hj. lia.
           ++ apply nth_error_In in Hj. now apply IH in Hj.
        -- intros [|j] e' Hlt' Hj He'; [lia|]. simpl in Hj.
           apply nth_error_In in Hj. now apply IH in Hj.
    + apply String.eqb_neq in E.
      assert (G : JsMap.get name
                   (match JsMap.get (appName e0) (getAllApps_map l) with
                    | Some cur => if timestamp cur <? timestamp e0
                                  then JsMap.set (appName e0) e0 (getAllApps_map l)
                                  else getAllApps_map l
                    | None => JsMap.set (appName e0) e0 (getAllApps_map l)
                    end) = JsMap.get name (getAllApps_map l)).
      { destruct (JsMap.get (appName e0) (getAllApps_map l)) as [cur|].
        - destruct (timestamp cur <? timestamp e0); auto using get_set_other.
        - auto using get_set_other. }
      rewrite G. destruct (JsMap.get name (getAllApps_map l)) as [cur|].
      * destruct IH as [i (Hn & Ha & Hle & Hlt)]. exists (S i). repeat split; auto.
        -- intros [|j] e' Hj He'; simpl in Hj; [inversion Hj; subst; contradiction | eauto].
        -- intros [|j] e' Hlt' Hj He'; [lia|]. simpl in Hj.
           apply (Hlt j e'); auto. lia.
      * intros e [->|Hin]; auto.
Qed.

(** ** Reading the feed *)

Ltac run_step :=
  match goal with
  | |- context [if ?b then _ else _] => destruct b eqn:?
  | |- context [match ?x with _ => _ end] => destruct x eqn:?
  end.

Ltac unfold_reads :=
  unfold getAllApps, getAppVersions, checkAppNameAvailability,
    getApplicationDataDB, initIpfs, stopIpfs, db_collect, try_catch, bind,
    ret, throw.

Lemma getAllApps_cases (env : Env) (w : World) :
  getAllApps env w = (Ok (getAllApps_pure (log w)), w) \/
  exists msg, getAllApps env w = (Throw msg, w).
Proof.
  unfold_reads. destruct (ipfs_ok env), (db_ok env); simpl; eauto.
Qed.

Lemma getAppVersions_cases (env : Env) (name : string) (w : World) :
  getAppVersions env name w = (Ok (getAppVersions_pure name (log w)), w) \/
  exists msg, getAppVersions env name w = (Throw msg, w).
Proof.
  unfold_reads. destruct (ipfs_ok env), (db_ok env); simpl; eauto.
Qed.

Lemma getAllApps_ok (env : Env) (w : World) :
  ipfs_ok env = true -> db_ok env = true ->
  getAllApps env w = (Ok (getAllApps_pure (log w)), w).
Proof.
  intros Hi Hd. unfold_reads. now rewrite Hi, Hd.
Qed.

Lemma getAppVersions_ok (env : Env) (name : string) (w : World) :
  ipfs_ok env = true -> db_ok env = true ->
  getAppVersions env name w = (Ok (getAppVersions_pure name (log w)), w).
Proof.
  intros Hi Hd. unfold_reads. now rewrite Hi, Hd.
Qed.

Lemma checkAppNameAvailability_ok (env : Env) (name : string) (w : World) :
  ipfs_ok env = true -> db_ok env = true ->
  checkAppNameAvailability env name w =
  (Ok (List.length (filter (fun n => String.eqb n name) (map appName (log w)))
       =? 0)%nat, w).
Proof.
  intros Hi Hd. unfold_reads. now rewrite Hi, Hd.
Qed.

(** C1. For every log and every application name occurring in it,
    [getAllApps] returns exactly one entry of that application: the event of
    the application with the greatest timestamp, the last appended among
    those of that timestamp.  The entry is that event itself, so its [cid],
    [version], [deployed] and [status] all come from the one selected
    event. *)
Theorem getAllApps_latest_wins (env : Env) (w : World) (name : string) :
  ipfs_ok env = true -> db_ok env = true ->
  (exists e0, In e0 (log w) /\ appName e0 = name) ->
  exists apps e i,
    getAllApps env w = (Ok apps, w) /\
    filter (is_app name) apps = [e] /\
    find_app name apps = Some e /\
    nth_error (log w) i = Some e /\
    appName e = name /\
    (forall j e', nth_error (log w) j = Some e' -> appName e' = name ->
                  timestamp e' <= timestamp e) /\
    (forall j e', (i < j)%nat -> nth_error (log w) j = Some e' ->
                  appName e' = name -> timestamp e' < timestamp e) /\
    (forall a, In a apps -> appName a = name ->
               cid a = cid e /\ version a = version e /\
               deployed a = deployed e /\ status a = status e).
Proof.
  intros Hi Hd [e0 [Hin Hname]].
  pose proof (getAllApps_map_selects (log w) name) as Hsel.
  pose proof (keyed_filter name _ (getAllApps_map_keyed (log w))) as Hfil.
  destruct (JsMap.get name (getAllApps_map (log w))) as [e|].
  - destruct Hsel as [i (Hn & Ha & Hle & Hlt)].
    exists (getAllApps_pure (log w)), e, i.
    split; [now apply getAllApps_ok|].
    unfold getAllApps_pure. split; [exact Hfil|].
    split. { unfold find_app. rewrite find_head_of_filter.
             fold (is_app name). now rewrite Hfil. }
    repeat (split; [assumption|]).
    intros a Hina Hnamea.
    assert (Hf : In a (filter (is_app name) (JsMap.values (getAllApps_map (log w))))).
    { apply filter_In. split; auto. unfold is_app. now apply String.eqb_eq. }
    rewrite Hfil in Hf. destruct Hf as [<-|[]]. auto.
  - exfalso. now apply (Hsel e0).
Qed.

Lemma getAllApps_latest_wins_witness :
  exists apps e i,
    getAllApps env0 w_blog = (Ok apps, w_blog) /\
    filter (is_app "blog") apps = [e] /\
    find_app "blog" apps = Some e /\
    nth_error (log w_blog) i = Some e /\
    appName e = "blog" /\
    (forall j e', nth_error (log w_blog) j = Some e' -> appName e' = "blog" ->
                  timestamp e' <= timestamp e) /\
    (forall j e', (i < j)%nat -> nth_error (log w_blog) j = Some e' ->
                  appName e' = "blog" -> timestamp e' < timestamp e) /\
    (forall a, In a apps -> appName a = "blog" ->
               cid a = cid e /\ version a = version e /\
               deployed a = deployed e /\ status a = status e).
Proof.
  apply (getAllApps_latest_wins env0 w_blog "blog").
  - reflexivity.
  - reflexivity.
  - exists blog_v1. split; [simpl; auto | reflexivity].
Defined.

(** ** The stable sort *)

Section SortFacts.

Variable A : Type.
Variable key : A -> Z.

Let cmp (a b : A) : Z := key b - key a.

Lemma sort_insert_perm (x : A) (l : list A) :
  Permutation (sort_insert cmp x l) (x :: l).
Proof.
  induction l as [|y l IH]; simpl; auto.
  destruct (cmp x y <=? 0); auto.
  rewrite IH. apply perm_swap.
Qed.

Lemma js_sort_perm (l : list A) : Permutation (js_sort cmp l) l.
Proof.
  induction l as [|x l IH]; simpl; auto.
  rewrite sort_insert_perm. now constructor.
Qed.

Lemma sort_insert_sorted (x : A) (l : list A) :
  StronglySorted (fun a b => key b <= key a) l ->
  StronglySorted (fun a b => key b <= key a) (sort_insert cmp x l).
Proof.
  induction 1 as [|y l Hs IH Hall]; simpl.
  - repeat constructor.
  - unfold cmp at 1. destruct (key y - key x <=? 0) eqn:E.
    + apply Z.leb_le in E. constructor; [now constructor|].
      constructor; [lia|]. eapply Forall_impl; [|exact Hall].
      simpl. intros; lia.
    + apply Z.leb_gt in E. constructor; auto.
      apply (Permutation_Forall (Permutation_sym (sort_insert_perm x l))).
      constructor; [lia | assumption].
Qed.

Lemma js_sort_sorted (l : list A) :
  StronglySorted (fun a b => key b <= key a) (js_sort cmp l).
Proof.
  induction l as [|x l IH]; simpl; [constructor | now apply sort_insert_sorted].
Qed.

(** Sorting a list that is already in order leaves it as it is. *)
Lemma js_sort_idem (l : list A) :
  StronglySorted (fun a b => key b <= key a) l -> js_sort cmp l = l.
Proof.
  induction 1 as [|x l Hs IH Hall]; simpl; auto.
  rewrite IH. destruct l as [|y l]; simpl; auto.
  inversion Hall; subst. unfold cmp.
  destruct (key y - key x <=? 0) eqn:E; auto.
  apply Z.leb_gt in E. lia.
Qed.

End SortFacts.

(** ** Marking the deployed version *)

Lemma findIndex_cases {A : Type} (p : A -> bool) (l : list A) :
  match findIndex p l with
  | Some i => exists l1 x l2,
      l = l1 ++ x :: l2 /\ List.length l1 = i /\ p x = true /\
      forall y, In y l1 -> p y = false
  | None => forall y, In y l -> p y = false
  end.
Proof.
  induction l as [|a l IH]; simpl.
  - intros y [].
  - destruct (p a) eqn:E.
    + exists [], a, l. simpl. intuition.
    + destruct (findIndex p l) as [i|].
      * destruct IH as (l1 & x & l2 & -> & <- & Hx & Hl1).
        exists (a :: l1), x, l2. simpl. intuition. now subst.
      * intros y [<-|Hin]; auto.
Qed.

Lemma setDeployedAt_app (b : bool) (l1 l2 : list VersionEntry) (x : VersionEntry) :
  setDeployedAt (List.length l1) b (l1 ++ x :: l2) = l1 ++ setDeployed b x :: l2.
Proof.
  induction l1 as [|a l1 IH]; simpl; auto. now rewrite IH.
Qed.

Lemma setDeployed_own (v : VersionEntry) (b : bool) :
  vdeployed v = b -> setDeployed b (setDeployed (negb b) v) = v.
Proof.
  destruct v; simpl. now intros ->.
Qed.

Lemma markLatestDeployed_cases (versions : list VersionEntry) :
  ((forall v, In v versions -> vdeployed v = false) /\
   markLatestDeployed versions = versions) \/
  exists l1 x l2,
    versions = l1 ++ x :: l2 /\ vdeployed x = true /\
    (forall y, In y l1 -> vdeployed y = false) /\
    markLatestDeployed versions =
    map (setDeployed false) l1 ++ x :: map (setDeployed false) l2.
Proof.
  unfold markLatestDeployed.
  pose proof (findIndex_cases vdeployed versions) as H.
  destruct (findIndex vdeployed versions) as [i|].
  - right. destruct H as (l1 & x & l2 & -> & <- & Hx & Hl1).
    exists l1, x, l2. repeat split; auto.
    rewrite map_app. simpl.
    replace (List.length l1) with (List.length (map (setDeployed false) l1))
      by apply length_map.
    rewrite setDeployedAt_app.
    pose proof (setDeployed_own x true Hx) as Hown. simpl in Hown.
    now rewrite Hown.
  - left. auto.
Qed.

Lemma cleared_not_deployed (l : list VersionEntry) (v : VersionEntry) :
  In v (map (setDeployed false) l) -> vdeployed v = false.
Proof.
  intros H. apply in_map_iff in H. now destruct H as (u & <- & _).
Qed.

Lemma cleared_count (l : list VersionEntry) :
  filter vdeployed (map (setDeployed false) l) = [].
Proof.
  induction l; simpl; auto.
Qed.

Lemma markLatestDeployed_keys (versions : list VersionEntry) :
  map versionKey (markLatestDeployed versions) = map versionKey versions.
Proof.
  destruct (markLatestDeployed_cases versions)
    as [[_ ->]|(l1 & x & l2 & -> & _ & _ & ->)]; auto.
  rewrite !map_app. simpl. rewrite !map_map. reflexivity.
Qed.

Lemma descending_by_keys (l l' : list VersionEntry) :
  map versionKey l = map versionKey l' -> descending l -> descending l'.
Proof.
  unfold descending. revert l'.
  induction l as [|a l IH]; intros [|a' l'] Hk Hs; try discriminate.
  - constructor.
  - simpl in Hk. inversion Hk as [[Ht Hc Hts Hrest]].
    inversion Hs as [|? ? Hs' Hall]; subst.
    constructor; [now apply IH|].
    clear IH Hs Hs' Hk. revert l' Hrest.
    induction Hall as [|b l Hb Hall IHl]; intros [|b' l'] Hrest; try discriminate.
    + constructor.
    + simpl in Hrest. inversion Hrest as [[Ht' Hc' Hts' Hrest']].
      constructor; [lia | now apply IHl].
Qed.

Lemma descending_after (l1 l2 : list VersionEntry) (x : VersionEntry) :
  descending (l1 ++ x :: l2) ->
  forall y, In y l2 -> vtimestamp y <= vtimestamp x.
Proof.
  unfold descending. induction l1 as [|a l1 IH]; simpl; intros Hs y Hy.
  - inversion Hs as [|? ? _ Hall]; subst.
    rewrite Forall_forall in Hall. now apply Hall.
  - inversion Hs; subst. now apply IH.
Qed.

Lemma sortedVersions_perm (name : string) (entries : list AppData) :
  Permutation (sortedVersions name entries)
    (map toVersion (filter (is_app name) entries)).
Proof.
  apply (js_sort_perm VersionEntry vtimestamp).
Qed.

Lemma sortedVersions_descending (name : string) (entries : list AppData) :
  descending (sortedVersions name entries).
Proof.
  apply (js_sort_sorted VersionEntry vtimestamp).
Qed.

Lemma sortedVersions_In (name : string) (entries : list AppData) (v : VersionEntry) :
  In v (sortedVersions name entries) <->
  exists e, In e entries /\ appName e = name /\ v = toVersion e.
Proof.
  split.
  - intros H. apply (Permutation_in _ (sortedVersions_perm name entries)) in H.
    apply in_map_iff in H. destruct H as (e & <- & He).
    apply filter_In in He. destruct He as [He Hn].
    exists e. repeat split; auto. now apply String.eqb_eq.
  - intros (e & He & Hn & ->).
    apply (Permutation_in _ (Permutation_sym (sortedVersions_perm name entries))).
    apply in_map. apply filter_In. split; auto.
    unfold is_app. now apply String.eqb_eq.
Qed.

Lemma getAppVersions_pure_count (name : string) (entries : list AppData) :
  (deployedCount (getAppVersions_pure name entries) <= 1)%nat.
Proof.
  unfold getAppVersions_pure, deployedCount.
  destruct (markLatestDeployed_cases (sortedVersions name entries))
    as [[Hnone ->]|(l1 & x & l2 & _ & Hx & _ & ->)].
  - assert (E : filter vdeployed (sortedVersions name entries) = []).
    { induction (sortedVersions name entries) as [|a l IH]; simpl; auto.
      rewrite (Hnone a) by (simpl; auto). apply IH.
      intros v Hv. apply Hnone. simpl; auto. }
    rewrite E. simpl. lia.
  - rewrite filter_app. simpl. rewrite Hx, !cleared_count. simpl. lia.
Qed.

(** C7. Whatever the log and the application, a materialization treats at
    most one event of the application as deployed: the list returned by
    [getAppVersions] holds at most one entry with [deployed = true], and
    [getAllApps] holds at most one entry of the application. *)
Theorem at_most_one_deployed (env : Env) (name : string) (w w' : World)
  (versions : list VersionEntry) :
  getAppVersions env name w = (Ok versions, w') ->
  (deployedCount versions <= 1)%nat /\
  (List.length (filter (is_app name) (getAllApps_pure (log w))) <= 1)%nat.
Proof.
  intros Hrun. split.
  - destruct (getAppVersions_cases env name w) as [E|[msg E]];
      rewrite E in Hrun; inversion Hrun; subst.
    apply getAppVersions_pure_count.
  - unfold getAllApps_pure.
    rewrite (keyed_filter name _ (getAllApps_map_keyed (log w))).
    destruct (JsMap.get name (getAllApps_map (log w))); simpl; lia.
Qed.

Lemma at_most_one_deployed_witness :
  (deployedCount (getAppVersions_pure "blog" (log w_blog)) <= 1)%nat /\
  (List.length (filter (is_app "blog") (getAllApps_pure (log w_blog))) <= 1)%nat.
Proof.
  apply (at_most_one_deployed env0 "blog" w_blog w_blog
           (getAppVersions_pure "blog" (log w_blog))).
  reflexivity.
Defined.

(** C2, as the code has it. [getAppVersions] returns one entry per event of
    the application, in descending order of timestamp.  If some event of the
    application is marked deployed, exactly one entry is deployed, the one
    of the latest event among those marked deployed, and every other entry
    has [deployed = false]; if no event of the application is marked
    deployed, no entry is deployed.  For [(t=10, v1, deployed)] then
    [(t=20, v2, deployed)] of "blog" the result is
    [[v2 (deployed); v1 (not deployed)]]. *)
Theorem getAppVersions_marks_latest (env : Env) (name : string) (w : World) :
  ipfs_ok env = true -> db_ok env = true ->
  exists versions,
    getAppVersions env name w = (Ok versions, w) /\
    Permutation (map versionKey versions)
      (map versionKey (map toVersion (filter (is_app name) (log w)))) /\
    descending versions /\
    ((exists e, In e (log w) /\ appName e = name /\ deployed e = true) ->
     exists before latest after e,
       versions = before ++ latest :: after /\
       vdeployed latest = true /\
       (forall v, In v (before ++ after) -> vdeployed v = false) /\
       In e (log w) /\ appName e = name /\ deployed e = true /\
       latest = toVersion e /\
       (forall e', In e' (log w) -> appName e' = name -> deployed e' = true ->
                   timestamp e' <= timestamp e)) /\
    ((forall e, In e (log w) -> appName e = name -> deployed e = false) ->
     forall v, In v versions -> vdeployed v = false) /\
    getAppVersions env "blog" (world_of [blog_v1; blog_v2]) =
    (Ok [ {| tag := "v2"; vcid := "cid2"; vtimestamp := 20; vdeployed := true |};
          {| tag := "v1"; vcid := "cid1"; vtimestamp := 10; vdeployed := false |} ],
     world_of [blog_v1; blog_v2]).
Proof.
  intros Hi Hd. exists (getAppVersions_pure name (log w)).
  split; [now apply getAppVersions_ok|].
  pose proof (sortedVersions_descending name (log w)) as Hdesc.
  pose proof (markLatestDeployed_keys (sortedVersions name (log w))) as Hkeys.
  fold (getAppVersions_pure name (log w)) in Hkeys.
  split; [|split; [|split; [|split]]].
  - rewrite Hkeys. apply Permutation_map. apply sortedVersions_perm.
  - eapply descending_by_keys; [symmetry; exact Hkeys | exact Hdesc].
  - intros (e0 & He0 & Hn0 & Hdep0).
    unfold getAppVersions_pure.
    destruct (markLatestDeployed_cases (sortedVersions name (log w)))
      as [[Hnone _]|(l1 & x & l2 & Hsplit & Hx & Hl1 & ->)].
    + assert (Hin : In (toVersion e0) (sortedVersions name (log w)))
        by (apply sortedVersions_In; eauto).
      apply Hnone in Hin. simpl in Hin. congruence.
    + assert (Hxin : In x (sortedVersions name (log w)))
        by (rewrite Hsplit; apply in_or_app; simpl; auto).
      apply sortedVersions_In in Hxin. destruct Hxin as (e & He & Hn & ->).
      exists (map (setDeployed false) l1), (toVersion e),
        (map (setDeployed false) l2), e.
      repeat split; auto.
      * intros v Hv. apply in_app_or in Hv.
        destruct Hv as [Hv|Hv]; eapply cleared_not_deployed; eauto.
      * intros e' He' Hn' Hdep'.
        assert (Hin : In (toVersion e') (sortedVersions name (log w)))
          by (apply sortedVersions_In; eauto).
        rewrite Hsplit in Hin. apply in_app_or in Hin.
        destruct Hin as [Hin|[Heq|Hin]].
        -- apply Hl1 in Hin. simpl in Hin. congruence.
        -- apply (f_equal vtimestamp) in Heq. simpl in Heq. lia.
        -- rewrite Hsplit in Hdesc.
           apply (descending_after _ _ _ Hdesc) in Hin. simpl in Hin. lia.
  - intros Hnone v Hv. unfold getAppVersions_pure in Hv.
    assert (Hs : forall u, In u (sortedVersions name (log w)) -> vdeployed u = false).
    { intros u Hu. apply sortedVersions_In in Hu.
      destruct Hu as (e & He & Hn & ->). simpl. auto. }
    destruct (markLatestDeployed_cases (sortedVersions name (log w)))
      as [[_ E]|(l1 & x & l2 & Hsplit & Hx & _ & _)].
    + rewrite E in Hv. auto.
    + rewrite Hs in Hx; [discriminate|].
      rewrite Hsplit. apply in_or_app. simpl. auto.
  - now rewrite getAppVersions_ok.
Qed.

Lemma getAppVersions_marks_latest_witness :
  exists versions,
    getAppVersions env0 "blog" w_blog = (Ok versions, w_blog) /\
    Permutation (map versionKey versions)
      (map versionKey (map toVersion (filter (is_app "blog") (log w_blog)))) /\
    descending versions /\
    ((exists e, In e (log w_blog) /\ appName e = "blog" /\ deployed e = true) ->
     exists before latest after e,
       versions = before ++ latest :: after /\
       vdeployed latest = true /\
       (forall v, In v (before ++ after) -> vdeployed v = false) /\
       In e (log w_blog) /\ appName e = "blog" /\ deployed e = true /\
       latest = toVersion e /\
       (forall e', In e' (log w_blog) -> appName e' = "blog" ->
                   deployed e' = true -> timestamp e' <= timestamp e)) /\
    ((forall e, In e (log w_blog) -> appName e = "blog" -> deployed e = false) ->
     forall v, In v versions -> vdeployed v = false) /\
    getAppVersions env0 "blog" (world_of [blog_v1; blog_v2]) =
    (Ok [ {| tag := "v2"; vcid := "cid2"; vtimestamp := 20; vdeployed := true |};
          {| tag := "v1"; vcid := "cid1"; vtimestamp := 10; vdeployed := false |} ],
     world_of [blog_v1; blog_v2]).
Proof.
  apply (getAppVersions_marks_latest env0 "blog" w_blog); reflexivity.
Defined.

(** C2 as stated fails where no event of the application is marked deployed:
    the single entry of an undeployed draft stays undeployed, and an
    application without events has no entry at all. *)
Lemma getAppVersions_none_deployed :
  getAppVersions env0 "blog" (world_of [blog_draft]) =
  (Ok [ {| tag := "v0"; vcid := "cid0"; vtimestamp := 5; vdeployed := false |} ],
   world_of [blog_draft]) /\
  getAppVersions env0 "blog" w_empty = (Ok [], w_empty) /\
  ~ (exists versions v,
        getAppVersions env0 "blog" (world_of [blog_draft]) =
        (Ok versions, world_of [blog_draft]) /\
        In v versions /\ vdeployed v = true).
Proof.
  split; [reflexivity|]. split; [reflexivity|].
  intros (versions & v & Hrun & Hin & Hdep).
  vm_compute in Hrun. inversion Hrun; subst.
  destruct Hin as [<-|[]]. discriminate.
Qed.

(** ** Running the commands *)

Ltac run_cbv :=
  cbv beta iota delta
    [rollbackToVersion startApplication stopApplication deleteApplication
     announceDeployment storeAppData getAllApps getAppVersions
     checkAppNameAvailability getApplicationDataDB initIpfs stopIpfs
     getLibp2p dateNow publish db_add db_collect try_catch bind ret throw
     exit negb fst snd default_arg];
  cbn [log trace ticks].

Ltac env_ok H :=
  let Hi := fresh "Hi" in let Hl := fresh "Hl" in let Hd := fresh "Hd" in
  let Ha := fresh "Ha" in let Hp := fresh "Hp" in
  pose proof H as (Hi & Hl & Hd & Ha & Hp);
  run_cbv; rewrite ?Hi, ?Hl, ?Hd, ?Ha, ?Hp; run_cbv.

Lemma storeAppData_ok (env : Env) (e : AppData) (w : World) :
  available env ->
  storeAppData env e w =
  (Ok true,
   {| log := log w ++ [e];
      trace := (trace w ++ [EAppend e]) ++
               [EPublish "debros-app-data" (MAppDataUpdate e (clock env (ticks w)))];
      ticks := S (ticks w) |}).
Proof.
  intros (Hi & Hl & Hd & Ha & Hp).
  unfold storeAppData, getApplicationDataDB, initIpfs, db_add, dateNow,
    getLibp2p, publish, stopIpfs, try_catch, bind, ret, throw.
  rewrite Hi, Hd, Ha, Hl, Hp. reflexivity.
Qed.

Lemma rollbackTarget_previous (versions : list VersionEntry) :
  (exists v, In v versions /\ vdeployed v = false) ->
  exists target,
    rollbackTarget None versions = inr target /\
    In target versions /\ vdeployed target = false /\
    forall v, In v versions -> vdeployed v = false ->
              vtimestamp v <= vtimestamp target.
Proof.
  intros (v0 & Hin0 & Hd0). unfold rollbackTarget. simpl.
  set (others := filter (fun v => negb (vdeployed v)) versions).
  pose proof (js_sort_perm VersionEntry vtimestamp others) as Hperm.
  pose proof (js_sort_sorted VersionEntry vtimestamp others) as Hsorted.
  fold byTimestampDesc in Hperm, Hsorted.
  assert (Hv0 : In v0 others) by (apply filter_In; rewrite Hd0; auto).
  destruct (js_sort byTimestampDesc others) as [|t rest] eqn:E.
  - apply Permutation_nil in Hperm. rewrite Hperm in Hv0. destruct Hv0.
  - exists t. split; auto.
    assert (Ht : In t others) by (apply (Permutation_in _ Hperm); simpl; auto).
    apply filter_In in Ht. destruct Ht as [Ht Htd].
    apply negb_true_iff in Htd. repeat split; auto.
    intros v Hv Hvd.
    assert (Hvo : In v others) by (apply filter_In; rewrite Hvd; auto).
    apply (Permutation_in _ (Permutation_sym Hperm)) in Hvo.
    destruct Hvo as [<-|Hvo]; [lia|].
    inversion Hsorted as [|? ? _ Hall]; subst.
    rewrite Forall_forall in Hall. now apply Hall.
Qed.

Lemma rollbackTarget_no_previous (versions : list VersionEntry) :
  (forall v, In v versions -> vdeployed v = true) ->
  rollbackTarget None versions =
  inl (failure "No previous versions found to rollback to").
Proof.
  intros Hall. unfold rollbackTarget. simpl.
  assert (E : filter (fun v => negb (vdeployed v)) versions = []).
  { induction versions as [|a l IH]; simpl; auto.
    rewrite (Hall a) by (simpl; auto). simpl. apply IH.
    intros v Hv. apply Hall. simpl; auto. }
  now rewrite E.
Qed.

(** C3, as the code has it.  With every collaborator available, if the
    versions of the application hold an entry with [deployed = false],
    [rollbackToVersion] without a version tag selects the entry with the
    greatest timestamp among those with [deployed = false], appends one
    event with [deployed = true], [status = running], the target's [cid] and
    [version] and no [isRollback] property, publishes a deployment message
    with [isRollback = true] on the deploy topic, and returns success with
    the chosen version and cid.  If the versions are not empty and none has
    [deployed = false], it returns the failure "No previous versions found
    to rollback to" and leaves the world as it was. *)
Theorem rollback_to_previous (env : Env) (name : string)
  (domain0 : option string) (force : option bool) (w : World) :
  available env ->
  let versions := getAppVersions_pure name (log w) in
  let appDomain := or_else domain0 (name ++ "." ++ defaultDomain env) in
  ((exists v, In v versions /\ vdeployed v = false) ->
   exists target w',
     In target versions /\ vdeployed target = false /\
     (forall v, In v versions -> vdeployed v = false ->
                vtimestamp v <= vtimestamp target) /\
     rollbackToVersion env name None domain0 force w =
     (Ok {| success := true; message := None;
            r_version := Some (tag target); r_cid := Some (vcid target) |}, w') /\
     log w' = log w ++
       [ {| appName := name; cid := vcid target; version := tag target;
            timestamp := clock env (S (ticks w)); deployed := true;
            domain := Some appDomain; status := running;
            isRollback := None |} ] /\
     exists rest,
       added w w'
         (EPublish "debros-deploy"
            (MDeployment (vcid target) name (tag target) appDomain (Some true)
               (clock env (ticks w))) :: rest)) /\
  (versions <> [] -> (forall v, In v versions -> vdeployed v = true) ->
   rollbackToVersion env name None domain0 force w =
   (Ok (failure "No previous versions found to rollback to"), w)).
Proof.
  intros Hav versions appDomain. subst versions appDomain.
  remember (getAppVersions_pure name (log w)) as versions eqn:Ev.
  split.
  - intros Hex.
    destruct (rollbackTarget_previous versions Hex) as (target & Ht & Hin & Hdep & Hmax).
    exists target. eexists. repeat (split; [eassumption|]).
    env_ok Hav. rewrite <- Ev.
    destruct versions as [|v0 vs]; [destruct Hin|].
    rewrite Ht. simpl Nat.eqb. run_cbv.
    split; [reflexivity|]. split; [reflexivity|].
    eexists. unfold added. cbn [trace]. rewrite <- !app_assoc. reflexivity.
  - intros Hne Hall.
    env_ok Hav. rewrite <- Ev.
    rewrite rollbackTarget_no_previous by assumption.
    destruct versions as [|v0 vs]; [congruence|].
    reflexivity.
Qed.

Lemma rollback_to_previous_witness :
  exists target w',
    In target (getAppVersions_pure "blog" (log w_blog)) /\
    vdeployed target = false /\
    (forall v, In v (getAppVersions_pure "blog" (log w_blog)) ->
               vdeployed v = false -> vtimestamp v <= vtimestamp target) /\
    rollbackToVersion env0 "blog" None None None w_blog =
    (Ok {| success := true; message := None;
           r_version := Some (tag target); r_cid := Some (vcid target) |}, w') /\
    log w' = log w_blog ++
      [ {| appName := "blog"; cid := vcid target; version := tag target;
           timestamp := clock env0 (S (ticks w_blog)); deployed := true;
           domain := Some (or_else None ("blog" ++ "." ++ defaultDomain env0));
           status := running; isRollback := None |} ] /\
    exists rest,
      added w_blog w'
        (EPublish "debros-deploy"
           (MDeployment (vcid target) "blog" (tag target)
              (or_else None ("blog" ++ "." ++ defaultDomain env0)) (Some true)
              (clock env0 (ticks w_blog))) :: rest).
Proof.
  destruct (rollback_to_previous env0 "blog" None None w_blog) as [H _].
  - unfold available. simpl. repeat split.
  - apply H.
    exists {| tag := "v1"; vcid := "cid1"; vtimestamp := 10; vdeployed := false |}.
    split; [simpl; auto | reflexivity].
Defined.

(** C3 as stated fails on the [isRollback] mark: the event appended by a
    rollback carries no such property; only the published message does. *)
Lemma rollback_event_not_marked :
  exists r w' e,
    rollbackToVersion env0 "blog" None None None w_blog = (Ok r, w') /\
    success r = true /\
    log w' = log w_blog ++ [e] /\
    isRollback e = None /\ isRollback e <> Some true.
Proof.
  do 3 eexists. split; [reflexivity|]. split; [reflexivity|].
  split; [reflexivity|]. split; [reflexivity | discriminate].
Qed.

(** ** What the commands do to the world, in every environment *)

Ltac crush_step :=
  run_cbv;
  match goal with
  | |- context [if ?b then _ else _] => destruct b eqn:?
  | |- context [match ?x with inl _ => _ | inr _ => _ end] => destruct x eqn:?
  | |- context [match ?x with Some _ => _ | None => _ end] => destruct x eqn:?
  | |- context [match ?x with Ok _ => _ | Throw _ => _ | Exit _ => _ end] =>
      is_var x; destruct x
  end.

Ltac crush := repeat crush_step; run_cbv.

Ltac effects_leaf :=
  unfold effects_ok, added; cbn [log trace ticks];
  first
    [ exists []; split; [now rewrite app_nil_r|];
      split; [constructor | simpl; now rewrite app_nil_r]
    | eexists; split; [rewrite <- ?app_assoc; reflexivity|];
      simpl app; split;
      [constructor; reflexivity | simpl; rewrite ?app_nil_r; reflexivity] ].

Lemma rollbackToVersion_effects env name versionTag domain0 force w :
  effects_ok w (snd (rollbackToVersion env name versionTag domain0 force w)).
Proof.
  crush; effects_leaf.
Qed.

Lemma startApplication_effects env name versionTag w :
  effects_ok w (snd (startApplication env name versionTag w)).
Proof.
  crush; effects_leaf.
Qed.

Lemma stopApplication_effects env name force w :
  effects_ok w (snd (stopApplication env name force w)).
Proof.
  crush; effects_leaf.
Qed.

Lemma deleteApplication_effects env name force w :
  effects_ok w (snd (deleteApplication env name force w)).
Proof.
  crush; effects_leaf.
Qed.

Lemma announceDeployment_effects env cid0 name version0 domain0 w :
  effects_ok w (snd (announceDeployment env cid0 name version0 domain0 w)).
Proof.
  crush; effects_leaf.
Qed.

Lemma command_effects_order (new : list Effect) :
  command_effects new ->
  (forall i j, append_at new i -> broadcast_at new j -> (j < i)%nat) /\
  (forall i, append_at new i -> broadcast_at new 0).
Proof.
  unfold append_at, broadcast_at.
  intros H. inversion H as [|topic m Ht|topic m e Ht|topic m e m' Ht]; subst; split.
  - intros [|i] j [e He]; discriminate.
  - intros [|i] [e He]; discriminate.
  - intros [|[|i]] j [e He]; discriminate.
  - intros [|[|i]] [e He]; discriminate.
  - intros [|[|[|i]]] [|[|[|j]]] [e0 He] (t & m0 & Hj & Hc);
      simpl in *; try discriminate; lia.
  - intros i _. exists topic, m. auto.
  - intros [|[|[|[|i]]]] [|[|[|[|j]]]] [e0 He] (t & m0 & Hj & Hc);
      simpl in *; try discriminate; try lia.
    inversion Hj; subst. discriminate.
  - intros i _. exists topic, m. auto.
Qed.

(** C4, as the code has it.  In every state-changing command (announce,
    rollback, start, stop) and every environment, the message on the
    command's topic ([debros-deploy] or [debros-app-actions]) is published
    before the event is appended: whenever an append occurs, a broadcast
    occurred first, and no broadcast on these topics follows an append.
    The log grows by exactly the appended events. *)
Theorem broadcast_precedes_append (env : Env) (w w' : World) :
  state_changing env w w' ->
  exists new,
    added w w' new /\
    log w' = log w ++ appends_of new /\
    (forall i j, append_at new i -> broadcast_at new j -> (j < i)%nat) /\
    (forall i, append_at new i -> exists j, (j < i)%nat /\ broadcast_at new j).
Proof.
  intros H.
  assert (Hok : effects_ok w w').
  { destruct H; auto using announceDeployment_effects,
      rollbackToVersion_effects, startApplication_effects,
      stopApplication_effects. }
  destruct Hok as (new & Hadd & Heff & Hlog).
  exists new. destruct (command_effects_order new Heff) as [Hord Hfirst].
  repeat split; auto.
  intros i Hi. exists O. split; [|now apply (Hfirst i)].
  apply (Hord i O); auto. now apply (Hfirst i).
Qed.

Lemma broadcast_precedes_append_witness :
  exists new,
    added w_blog (snd (rollbackToVersion env0 "blog" None None None w_blog)) new /\
    log (snd (rollbackToVersion env0 "blog" None None None w_blog)) =
    log w_blog ++ appends_of new /\
    (forall i j, append_at new i -> broadcast_at new j -> (j < i)%nat) /\
    (forall i, append_at new i -> exists j, (j < i)%nat /\ broadcast_at new j).
Proof.
  apply (broadcast_precedes_append env0 w_blog).
  apply by_rollback.
Defined.

(** C4 as stated fails: a rollback publishes on the deploy topic first and
    appends second. *)
Lemma rollback_broadcasts_first :
  exists new,
    added w_blog (snd (rollbackToVersion env0 "blog" None None None w_blog)) new /\
    broadcast_at new 0 /\ append_at new 1.
Proof.
  eexists. split; [unfold added; simpl; reflexivity|]. split.
  - do 2 eexists. split; reflexivity.
  - eexists. reflexivity.
Qed.

(** ** The current state of an application *)

Lemma find_app_get (name : string) (entries : list AppData) :
  find_app name (getAllApps_pure entries) =
  JsMap.get name (getAllApps_map entries).
Proof.
  unfold find_app. rewrite find_head_of_filter. fold (is_app name).
  unfold getAllApps_pure.
  rewrite (keyed_filter name _ (getAllApps_map_keyed entries)).
  now destruct (JsMap.get name (getAllApps_map entries)).
Qed.

Lemma selected_unique (name : string) (entries : list AppData)
  (i j : nat) (x y : AppData) :
  selected name entries i x -> selected name entries j y -> i = j /\ x = y.
Proof.
  intros (Hi & Hx & Hlei & Hlti) (Hj & Hy & Hlej & Hltj).
  destruct (Nat.lt_trichotomy i j) as [Hlt|[->|Hlt]].
  - specialize (Hlti j y Hlt Hj Hy). specialize (Hlej i x Hi Hx). lia.
  - split; congruence.
  - specialize (Hltj i x Hlt Hi Hx). specialize (Hlei j y Hj Hy). lia.
Qed.

Lemma find_app_selected (name : string) (entries : list AppData) (e : AppData) :
  find_app name (getAllApps_pure entries) = Some e <->
  exists i, selected name entries i e.
Proof.
  rewrite find_app_get.
  pose proof (getAllApps_map_selects entries name) as H.
  destruct (JsMap.get name (getAllApps_map entries)) as [x|]; split.
  - intros E. inversion E; subst. exact H.
  - intros [j Hj]. destruct H as [i Hi].
    destruct (selected_unique _ _ _ _ _ _ Hi Hj) as [_ ->]. reflexivity.
  - discriminate.
  - intros [j (Hn & Ha & _)]. apply nth_error_In in Hn. now apply H in Hn.
Qed.

Lemma find_app_unused (name : string) (entries : list AppData) :
  find_app name (getAllApps_pure entries) = None <-> ~ used name entries.
Proof.
  rewrite find_app_get.
  pose proof (getAllApps_map_selects entries name) as H.
  destruct (JsMap.get name (getAllApps_map entries)) as [x|]; split.
  - discriminate.
  - intros Hno. exfalso. apply Hno. destruct H as [i (Hn & Ha & _)].
    exists x. split; auto. eapply nth_error_In; eauto.
  - intros _ (e & He & Hn). now apply (H e).
  - reflexivity.
Qed.

Lemma rollbackTarget_early (versionTag : option string)
  (versions : list VersionEntry) (r : Result) :
  rollbackTarget versionTag versions = inl r -> exists msg, r = failure msg.
Proof.
  unfold rollbackTarget. repeat run_step; intros H; inversion H; eauto.
Qed.

Ltac early_result :=
  try match goal with
      | H : rollbackTarget _ _ = inl _ |- _ =>
          apply rollbackTarget_early in H; destruct H as [? ->]
      end.

Ltac failed_leaf :=
  early_result; cbn [log trace ticks];
  eexists; repeat split; reflexivity.

Ltac unnotified_leaf :=
  early_result; cbn [log trace ticks];
  eexists; split; [reflexivity|];
  let Hne := fresh "Hne" in
  intros Hne;
  first [ now (exfalso; apply Hne) | split; reflexivity ].

(** C5, as the code has it.  A failing publish is not swallowed: it fails
    the command.  When the publish on the command's own topic fails
    ([debros-deploy] for announce and rollback, [debros-app-actions] for
    start and stop), rollback, start and stop return
    [{success: false, message: <the publish error>}], [announceDeployment]
    throws the publish error, and nothing is appended or published.  When
    the own publish succeeds and the publish of the update on
    [debros-app-data] fails, the event is appended first, and rollback,
    start and stop still return [{success: false}] with the publish error
    as message and [announceDeployment] throws it: the command fails
    although its event stays in the log.  In every environment, whatever
    else fails, a command whose own topic cannot be published on reports
    failure and appends nothing. *)
Theorem publish_failure_fails_command (env : Env) (w : World) :
  (ipfs_ok env = true -> libp2p_up env = true ->
   (publish_ok env "debros-deploy" = false ->
    (forall cid0 name version0 domain0,
       exists w',
         announceDeployment env cid0 name version0 domain0 w =
         (Throw (publish_err env), w') /\
         log w' = log w /\ trace w' = trace w) /\
    (forall name versionTag domain0 force target,
       db_ok env = true ->
       getAppVersions_pure name (log w) <> [] ->
       rollbackTarget versionTag (getAppVersions_pure name (log w)) = inr target ->
       exists w',
         rollbackToVersion env name versionTag domain0 force w =
         (Ok {| success := false; message := Some (publish_err env);
                r_version := None; r_cid := None |}, w') /\
         log w' = log w /\ trace w' = trace w)) /\
   (publish_ok env "debros-app-actions" = false ->
    (forall name versionTag target,
       db_ok env = true ->
       find (fun v => String.eqb (tag v) (default_arg versionTag "latest"))
         (getAppVersions_pure name (log w)) = Some target ->
       exists w',
         startApplication env name versionTag w =
         (Ok {| success := false; message := Some (publish_err env);
                r_version := None; r_cid := None |}, w') /\
         log w' = log w /\ trace w' = trace w) /\
    (forall name force,
       exists w',
         stopApplication env name force w =
         (Ok {| success := false; message := Some (publish_err env);
                r_version := None; r_cid := None |}, w') /\
         log w' = log w /\ trace w' = trace w))) /\
  (ipfs_ok env = true -> libp2p_up env = true -> db_ok env = true ->
   add_ok env = true -> publish_ok env "debros-app-data" = false ->
   (publish_ok env "debros-deploy" = true ->
    (forall cid0 name version0 domain0,
       exists w' e m,
         announceDeployment env cid0 name version0 domain0 w =
         (Throw (publish_err env), w') /\
         log w' = log w ++ [e] /\
         trace w' = trace w ++ [EPublish "debros-deploy" m; EAppend e] /\
         appName e = name /\ cid e = cid0 /\
         version e = default_arg version0 "latest" /\
         timestamp e = clock env (S (ticks w)) /\
         deployed e = true /\ status e = running) /\
    (forall name versionTag domain0 force target,
       getAppVersions_pure name (log w) <> [] ->
       rollbackTarget versionTag (getAppVersions_pure name (log w)) = inr target ->
       exists w' e m,
         rollbackToVersion env name versionTag domain0 force w =
         (Ok {| success := false; message := Some (publish_err env);
                r_version := None; r_cid := None |}, w') /\
         log w' = log w ++ [e] /\
         trace w' = trace w ++ [EPublish "debros-deploy" m; EAppend e] /\
         e = {| appName := name; cid := vcid target; version := tag target;
                timestamp := clock env (S (ticks w)); deployed := true;
                domain := Some (or_else domain0 (name ++ "." ++ defaultDomain env));
                status := running; isRollback := None |})) /\
   (publish_ok env "debros-app-actions" = true ->
    (forall name versionTag target,
       find (fun v => String.eqb (tag v) (default_arg versionTag "latest"))
         (getAppVersions_pure name (log w)) = Some target ->
       exists w' e m,
         startApplication env name versionTag w =
         (Ok {| success := false; message := Some (publish_err env);
                r_version := None; r_cid := None |}, w') /\
         log w' = log w ++ [e] /\
         trace w' = trace w ++ [EPublish "debros-app-actions" m; EAppend e] /\
         appName e = name /\ cid e = vcid target /\
         version e = default_arg versionTag "latest" /\
         timestamp e = clock env (S (ticks w)) /\
         deployed e = true /\ status e = running) /\
    (forall name force i current,
       selected name (log w) i current ->
       exists w' e m,
         stopApplication env name force w =
         (Ok {| success := false; message := Some (publish_err env);
                r_version := None; r_cid := None |}, w') /\
         log w' = log w ++ [e] /\
         trace w' = trace w ++ [EPublish "debros-app-actions" m; EAppend e] /\
         e = {| appName := appName current; cid := cid current;
                version := version current;
                timestamp := clock env (S (ticks w));
                deployed := deployed current; domain := domain current;
                status := stopped; isRollback := isRollback current |}))) /\
  (forall topic,
     publish_ok env topic = false ->
     (topic = "debros-deploy" ->
      (forall name versionTag domain0 force,
         exists r,
           fst (rollbackToVersion env name versionTag domain0 force w) = Ok r /\
           success r = false /\
           log (snd (rollbackToVersion env name versionTag domain0 force w)) = log w) /\
      (forall cid0 name version0 domain0,
         exists msg,
           fst (announceDeployment env cid0 name version0 domain0 w) = Throw msg /\
           log (snd (announceDeployment env cid0 name version0 domain0 w)) = log w)) /\
     (topic = "debros-app-actions" ->
      (forall name versionTag,
         exists r,
           fst (startApplication env name versionTag w) = Ok r /\
           success r = false /\
           log (snd (startApplication env name versionTag w)) = log w) /\
      (forall name force,
         exists r,
           fst (stopApplication env name force w) = Ok r /\
           success r = false /\
           log (snd (stopApplication env name force w)) = log w)) /\
     (topic = "debros-app-data" ->
      (forall name versionTag domain0 force,
         exists r,
           fst (rollbackToVersion env name versionTag domain0 force w) = Ok r /\
           (log (snd (rollbackToVersion env name versionTag domain0 force w)) <> log w ->
            success r = false /\ message r = Some (publish_err env))) /\
      (forall name versionTag,
         exists r,
           fst (startApplication env name versionTag w) = Ok r /\
           (log (snd (startApplication env name versionTag w)) <> log w ->
            success r = false /\ message r = Some (publish_err env))) /\
      (forall name force,
         exists r,
           fst (stopApplication env name force w) = Ok r /\
           (log (snd (stopApplication env name force w)) <> log w ->
            success r = false /\ message r = Some (publish_err env))) /\
      (forall cid0 name version0 domain0,
         log (snd (announceDeployment env cid0 name version0 domain0 w)) <> log w ->
         fst (announceDeployment env cid0 name version0 domain0 w) =
         Throw (publish_err env)))).
Proof.
  split; [|split].
  - intros Hi Hl. split; intros Hown; split.
    + intros. run_cbv. rewrite ?Hi, ?Hl, ?Hown. run_cbv.
      eexists. repeat split.
    + intros name versionTag domain0 force target Hd Hne Ht.
      run_cbv. rewrite ?Hi, ?Hl, ?Hd. run_cbv.
      destruct (getAppVersions_pure name (log w)) as [|v0 vs] eqn:Ev;
        [congruence|].
      rewrite Ht. simpl Nat.eqb. run_cbv. rewrite ?Hown. run_cbv.
      eexists. repeat split.
    + intros name versionTag target Hd Hf.
      run_cbv. rewrite ?Hi, ?Hl, ?Hd. run_cbv.
      destruct (getAppVersions_pure name (log w)) as [|v0 vs] eqn:Ev;
        [discriminate|].
      cbv beta iota delta [default_arg] in Hf.
      rewrite Hf. simpl Nat.eqb. run_cbv. rewrite ?Hown. run_cbv.
      eexists. repeat split.
    + intros. run_cbv. rewrite ?Hi, ?Hl, ?Hown. run_cbv.
      eexists. repeat split.
  - intros Hi Hl Hd Ha Hdata. split; intros Hown; split.
    + intros. run_cbv. rewrite ?Hi, ?Hl, ?Hd, ?Ha, ?Hown, ?Hdata. run_cbv.
      do 3 eexists. split; [reflexivity|]. split; [reflexivity|].
      split; [rewrite <- app_assoc; reflexivity|]. repeat split.
    + intros name versionTag domain0 force target Hne Ht.
      run_cbv. rewrite ?Hi, ?Hl, ?Hd. run_cbv.
      destruct (getAppVersions_pure name (log w)) as [|v0 vs] eqn:Ev;
        [congruence|].
      rewrite Ht. simpl Nat.eqb. run_cbv.
      rewrite ?Hi, ?Hl, ?Hd, ?Ha, ?Hown, ?Hdata. run_cbv.
      do 3 eexists. split; [reflexivity|]. split; [reflexivity|].
      split; [rewrite <- app_assoc; reflexivity|]. reflexivity.
    + intros name versionTag target Hf.
      run_cbv. rewrite ?Hi, ?Hl, ?Hd. run_cbv.
      destruct (getAppVersions_pure name (log w)) as [|v0 vs] eqn:Ev;
        [discriminate|].
      cbv beta iota delta [default_arg] in Hf.
      rewrite Hf. simpl Nat.eqb. run_cbv.
      rewrite ?Hi, ?Hl, ?Hd, ?Ha, ?Hown, ?Hdata. run_cbv.
      do 3 eexists. split; [reflexivity|]. split; [reflexivity|].
      split; [rewrite <- app_assoc; reflexivity|]. repeat split.
    + intros name force i current Hsel.
      assert (Hc : find_app name (getAllApps_pure (log w)) = Some current)
        by (apply find_app_selected; eauto).
      run_cbv. rewrite ?Hi, ?Hl, ?Hd, ?Ha, ?Hown, ?Hdata. run_cbv.
      rewrite Hc. run_cbv.
      rewrite ?Hi, ?Hl, ?Hd, ?Ha, ?Hown, ?Hdata. run_cbv.
      do 3 eexists. split; [reflexivity|]. split; [reflexivity|].
      split; [rewrite <- app_assoc; reflexivity|]. reflexivity.
  - intros topic Hfail. split; [|split]; intros ->.
    + split; intros; run_cbv; rewrite ?Hfail; crush; failed_leaf.
    + split; intros; run_cbv; rewrite ?Hfail; crush; failed_leaf.
    + split; [|split; [|split]].
      * intros; run_cbv; rewrite ?Hfail; crush; unnotified_leaf.
      * intros; run_cbv; rewrite ?Hfail; crush; unnotified_leaf.
      * intros; run_cbv; rewrite ?Hfail; crush; unnotified_leaf.
      * intros cid0 name version0 domain0. run_cbv. rewrite ?Hfail. crush.
        all: cbn [log trace ticks]; intros Hne;
          first [ now (exfalso; apply Hne) | reflexivity ].
Qed.

Lemma publish_failure_fails_command_witness :
  (exists w',
     stopApplication env_deaf "blog" None w_blog =
     (Ok {| success := false; message := Some (publish_err env_deaf);
            r_version := None; r_cid := None |}, w') /\
     log w' = log w_blog /\ trace w' = trace w_blog) /\
  (exists w' e m,
     rollbackToVersion env_mute "blog" (Some "v1") None None w_blog =
     (Ok {| success := false; message := Some (publish_err env_mute);
            r_version := None; r_cid := None |}, w') /\
     log w' = log w_blog ++ [e] /\
     trace w' = trace w_blog ++ [EPublish "debros-deploy" m; EAppend e] /\
     e = {| appName := "blog"; cid := "cid1"; version := "v1";
            timestamp := clock env_mute (S (ticks w_blog)); deployed := true;
            domain := Some (or_else None ("blog" ++ "." ++ defaultDomain env_mute));
            status := running; isRollback := None |}).
Proof.
  split.
  - destruct (publish_failure_fails_command env_deaf w_blog) as (H & _ & _).
    destruct (H eq_refl eq_refl) as (_ & Hact).
    destruct (Hact eq_refl) as (_ & Hstop).
    apply Hstop.
  - destruct (publish_failure_fails_command env_mute w_blog) as (_ & H & _).
    destruct (H eq_refl eq_refl eq_refl eq_refl eq_refl) as (Hdep & _).
    destruct (Hdep eq_refl) as (_ & Hrb).
    apply (Hrb "blog" (Some "v1") None None
             {| tag := "v1"; vcid := "cid1"; vtimestamp := 10;
                vdeployed := false |}).
    + vm_compute. discriminate.
    + reflexivity.
Defined.

(** C5 as stated fails: with the node deaf on [debros-app-data], a rollback
    appends its event and still reports failure; with no publish possible
    at all, it reports failure before appending anything. *)
Lemma rollback_fails_when_publish_fails :
  (exists r w' e,
     rollbackToVersion env_mute "blog" (Some "v1") None None w_blog = (Ok r, w') /\
     log w' = log w_blog ++ [e] /\
     success r = false /\ message r = Some "publish failed") /\
  (exists r w',
     rollbackToVersion env_deaf "blog" (Some "v1") None None w_blog = (Ok r, w') /\
     log w' = log w_blog /\
     success r = false /\ message r = Some "publish failed").
Proof.
  split.
  - do 3 eexists. repeat split; reflexivity.
  - do 2 eexists. repeat split; reflexivity.
Qed.

Lemma rollbackTarget_missing (t : string) (versions : list VersionEntry) :
  t <> "" ->
  find (fun v => String.eqb (tag v) t) versions = None ->
  rollbackTarget (Some t) versions =
  inl (failure ("Version " ++ t ++ " not found")).
Proof.
  intros Hne Hfind. unfold rollbackTarget, truthy, default_arg.
  apply String.eqb_neq in Hne. now rewrite Hne, Hfind.
Qed.

(** C6, as the code has it.  If the version tag matches no entry of the
    versions of the application, [startApplication] and, for a non-empty
    tag, [rollbackToVersion] return [{success: false}] in every environment
    and leave the world as it was: nothing is appended and nothing is
    published.  When the node and the feed can be reached, the message is
    "Version <tag> not found" if the application has versions, and
    "No versions found for <appName>" if it has none. *)
Theorem missing_version_is_atomic (env : Env) (name t : string)
  (domain0 : option string) (force : option bool) (w : World) :
  let versions := getAppVersions_pure name (log w) in
  let expected :=
    match versions with
    | [] => failure ("No versions found for " ++ name)
    | _ :: _ => failure ("Version " ++ t ++ " not found")
    end in
  find (fun v => String.eqb (tag v) t) versions = None ->
  (exists r,
     startApplication env name (Some t) w = (Ok r, w) /\
     success r = false /\ (readable env -> r = expected)) /\
  (t <> "" ->
   exists r,
     rollbackToVersion env name (Some t) domain0 force w = (Ok r, w) /\
     success r = false /\ (readable env -> r = expected)).
Proof.
  intros versions expected Hfind. subst versions expected.
  assert (Hrt : t <> "" ->
                rollbackTarget (Some t) (getAppVersions_pure name (log w)) =
                inl (failure ("Version " ++ t ++ " not found")))
    by (intros Hne; now apply rollbackTarget_missing).
  destruct (ipfs_ok env) eqn:Hi, (libp2p_up env) eqn:Hl, (db_ok env) eqn:Hd.
  all: split; [|intros Hne; specialize (Hrt Hne)].
  all: run_cbv; rewrite ?Hi, ?Hl, ?Hd; run_cbv; rewrite ?Hfind, ?Hrt; run_cbv.
  all: destruct (getAppVersions_pure name (log w)) as [|v0 vs];
    simpl Nat.eqb; run_cbv.
  all: eexists; (split; [reflexivity|]); (split; [reflexivity|]).
  all: intros (Hi' & Hl' & Hd'); try reflexivity; congruence.
Qed.

Lemma missing_version_is_atomic_witness :
  (exists r,
     startApplication env0 "blog" (Some "v9") w_blog = (Ok r, w_blog) /\
     success r = false /\
     (readable env0 -> r = failure ("Version " ++ "v9" ++ " not found"))) /\
  ("v9" <> "" ->
   exists r,
     rollbackToVersion env0 "blog" (Some "v9") None None w_blog = (Ok r, w_blog) /\
     success r = false /\
     (readable env0 -> r = failure ("Version " ++ "v9" ++ " not found"))).
Proof.
  apply (missing_version_is_atomic env0 "blog" "v9" None None w_blog).
  reflexivity.
Defined.

(** C6 as stated fails where the application has no version at all: the
    failure returned is the one for an empty history, not the one for a
    missing version.  It also fails for the empty tag, which matches no
    entry and which [rollbackToVersion] takes for an omitted one: the
    rollback to the previous version is carried out and an event is
    appended. *)
Lemma missing_version_of_unknown_app :
  (find (fun v => String.eqb (tag v) "v9") (getAppVersions_pure "blog" (log w_empty))
   = None /\
   rollbackToVersion env0 "blog" (Some "v9") None None w_empty =
   (Ok (failure "No versions found for blog"), w_empty) /\
   startApplication env0 "blog" (Some "v9") w_empty =
   (Ok (failure "No versions found for blog"), w_empty) /\
   failure "No versions found for blog" <> failure "Version v9 not found") /\
  (find (fun v => String.eqb (tag v) "") (getAppVersions_pure "blog" (log w_blog))
   = None /\
   exists w' e,
     rollbackToVersion env0 "blog" (Some "") None None w_blog =
     (Ok {| success := true; message := None;
            r_version := Some "v1"; r_cid := Some "cid1" |}, w') /\
     log w' = log w_blog ++ [e]).
Proof.
  split.
  - repeat split; try reflexivity. discriminate.
  - split; [reflexivity|]. do 2 eexists. split; reflexivity.
Qed.

(** C8, as the code has it.  For every application name, force flag and
    environment, [deleteApplication] leaves the log exactly as it was: it
    removes, changes or invalidates no event, and it appends none.  The
    deletion exists only as the "delete" action published on
    [debros-app-actions]; with every collaborator available that message is
    the only effect and the command reports success. *)
Theorem deleteApplication_keeps_log (env : Env) (name : string)
  (force : option bool) (w : World) :
  log (snd (deleteApplication env name force w)) = log w /\
  (exists new,
     added w (snd (deleteApplication env name force w)) new /\
     appends_of new = []) /\
  (available env ->
   fst (deleteApplication env name force w) = Ok succeeded /\
   added w (snd (deleteApplication env name force w))
     [EPublish "debros-app-actions"
        (MAction "delete" name (Some (default_arg force false)) None None
           (clock env (ticks w)))]).
Proof.
  assert (Hlog : log (snd (deleteApplication env name force w)) = log w)
    by (crush; reflexivity).
  split; [exact Hlog|]. split.
  - destruct (deleteApplication_effects env name force w)
      as (new & Hadd & _ & Hgrow).
    exists new. split; [exact Hadd|].
    rewrite Hlog in Hgrow. rewrite <- (app_nil_r (log w)) in Hgrow at 1.
    apply app_inv_head in Hgrow. now symmetry.
  - intros Hav. env_ok Hav. split; reflexivity.
Qed.

Lemma deleteApplication_keeps_log_witness :
  fst (deleteApplication env0 "blog" (Some true) w_blog) = Ok succeeded /\
  added w_blog (snd (deleteApplication env0 "blog" (Some true) w_blog))
    [EPublish "debros-app-actions"
       (MAction "delete" "blog" (Some (default_arg (Some true) false)) None None
          (clock env0 (ticks w_blog)))].
Proof.
  apply (deleteApplication_keeps_log env0 "blog" (Some true) w_blog).
  unfold available. simpl. repeat split.
Defined.

(** C8 as stated fails on the new event: deleting an application that has
    events succeeds and appends nothing, so the log holds no trace of the
    deletion. *)
Lemma deleteApplication_appends_nothing :
  exists w',
    deleteApplication env0 "blog" (Some true) w_blog = (Ok succeeded, w') /\
    log w' = log w_blog /\
    ~ (exists e, log w' = log w_blog ++ [e]).
Proof.
  eexists. split; [reflexivity|]. split; [reflexivity|].
  intros [e He]. simpl in He. discriminate.
Qed.

(** C9, as the code has it.  The outcome of [stopApplication], the log it
    leaves and the number of clock readings are the same for every value of
    [force], also through the [stop] command; [force] reaches only the
    published "stop" message.  With every collaborator available, the
    result is [{success: true}] without a message.  An application that has
    events gets exactly one new event: its [appName], [cid], [version],
    [deployed], [domain] and [isRollback] are those of the application's
    current materialized state, its [status] is [stopped] whatever the
    status was, and its [timestamp] is the clock reading taken after the
    "stop" message was published.  An application without events gets no
    event: the log stays as it was and the "stop" message is the only
    effect. *)
Theorem stopApplication_ignores_force (env : Env) (name : string)
  (force1 force2 : option bool) (w : World) :
  fst (stopApplication env name force1 w) = fst (stopApplication env name force2 w) /\
  log (snd (stopApplication env name force1 w)) =
  log (snd (stopApplication env name force2 w)) /\
  ticks (snd (stopApplication env name force1 w)) =
  ticks (snd (stopApplication env name force2 w)) /\
  log (exec env (CStop name force1) w) = log (exec env (CStop name force2) w) /\
  (available env ->
   exists r w',
     stopApplication env name force1 w = (Ok r, w') /\
     success r = true /\ message r = None /\
     r_version r = None /\ r_cid r = None /\
     let stopMessage :=
       MAction "stop" name
         (Some match force1 with Some b => b | None => false end)
         None None (clock env (ticks w)) in
     (used name (log w) ->
      exists i current e,
        selected name (log w) i current /\
        find_app name (getAllApps_pure (log w)) = Some current /\
        log w' = log w ++ [e] /\
        status e = stopped /\
        timestamp e = clock env (S (ticks w)) /\
        appName e = name /\ cid e = cid current /\
        version e = version current /\ deployed e = deployed current /\
        domain e = domain current /\ isRollback e = isRollback current /\
        added w w'
          [EPublish "debros-app-actions" stopMessage;
           EAppend e;
           EPublish "debros-app-data"
             (MAppDataUpdate e (clock env (S (S (ticks w)))))]) /\
     (~ used name (log w) ->
      find_app name (getAllApps_pure (log w)) = None /\
      log w' = log w /\
      added w w' [EPublish "debros-app-actions" stopMessage])).
Proof.
  split; [|split; [|split; [|split]]].
  - crush; reflexivity.
  - crush; reflexivity.
  - crush; reflexivity.
  - unfold exec, stopCommand. crush; reflexivity.
  - intros Hav. env_ok Hav.
    destruct (find_app name (getAllApps_pure (log w))) as [current|] eqn:Hc.
    + assert (Hsel : exists i, selected name (log w) i current)
        by now apply find_app_selected.
      destruct Hsel as [i Hsel].
      assert (Hused : used name (log w)).
      { destruct Hsel as (Hnth & Hname & _). exists current. split; auto.
        eapply nth_error_In; eauto. }
      env_ok Hav. do 2 eexists. split; [reflexivity|].
      repeat (split; [reflexivity|]).
      split; [|intros Hno; now elim Hno].
      intros _. exists i, current. eexists.
      split; [exact Hsel|]. split; [reflexivity|]. split; [reflexivity|].
      split; [reflexivity|]. split; [reflexivity|].
      split; [exact (proj1 (proj2 Hsel))|].
      repeat (split; [reflexivity|]).
      unfold added. cbn [trace]. rewrite <- !app_assoc. reflexivity.
    + assert (Hno : ~ used name (log w)) by now apply find_app_unused.
      run_cbv. do 2 eexists. split; [reflexivity|].
      repeat (split; [reflexivity|]).
      split; [intros Hused; now elim Hno|].
      intros _. repeat split.
Qed.

Lemma stopApplication_ignores_force_witness :
  exists r w' i current e,
    stopApplication env0 "blog" (Some true) w_blog = (Ok r, w') /\
    success r = true /\ message r = None /\
    selected "blog" (log w_blog) i current /\
    log w' = log w_blog ++ [e] /\
    status e = stopped /\
    timestamp e = clock env0 (S (ticks w_blog)) /\
    appName e = "blog" /\ cid e = cid current /\
    version e = version current /\ deployed e = deployed current /\
    domain e = domain current /\ isRollback e = isRollback current /\
    added w_blog w'
      [EPublish "debros-app-actions"
         (MAction "stop" "blog" (Some true) None None (clock env0 (ticks w_blog)));
       EAppend e;
       EPublish "debros-app-data"
         (MAppDataUpdate e (clock env0 (S (S (ticks w_blog)))))].
Proof.
  destruct (stopApplication_ignores_force env0 "blog" (Some true) None w_blog)
    as (_ & _ & _ & _ & H).
  destruct H as (r & w' & Hrun & Hs & Hm & _ & _ & Hused & _).
  - unfold available. simpl. repeat split.
  - destruct Hused
      as (i & current & e & Hsel & _ & Hlog & Hst & Ht & Ha & Hc & Hv & Hd & Hdo
          & Hr & Hadd).
    + exists blog_v1. simpl. auto.
    + exists r, w', i, current, e.
      repeat (split; [assumption|]). exact Hadd.
Defined.

(** C9 as stated fails for an application without events: stopping it
    succeeds and appends no event. *)
Lemma stopApplication_unknown_app :
  exists w',
    stopApplication env0 "blog" None w_empty = (Ok succeeded, w') /\
    log w' = log w_empty /\
    find_app "blog" (getAllApps_pure (log w_empty)) = None /\
    ~ (exists e, log w' = log w_empty ++ [e]).
Proof.
  eexists. split; [reflexivity|]. split; [reflexivity|]. split; [reflexivity|].
  intros [e He]. simpl in He. discriminate.
Qed.

(** ** The log only grows *)

Lemma uploadCommand_grows env fe fb optName optTag optDomain artifact w :
  exists tail,
    log (snd (uploadCommand env fe fb optName optTag optDomain artifact w)) =
    log w ++ tail.
Proof.
  unfold uploadCommand. crush; cbn [log trace ticks];
    first [ exists []; now rewrite app_nil_r | eexists; reflexivity ].
Qed.

Lemma exec_grows (env : Env) (c : Command) (w : World) :
  exists tail, log (exec env c w) = log w ++ tail.
Proof.
  destruct c; simpl.
  - apply uploadCommand_grows.
  - destruct (rollbackToVersion_effects env name versionTag domain0 force w)
      as (new & _ & _ & H). eauto.
  - unfold stopCommand. crush; cbn [log trace ticks];
      first [ exists []; now rewrite app_nil_r | eexists; reflexivity ].
  - destruct (startApplication_effects env name versionTag w)
      as (new & _ & _ & H). eauto.
  - destruct (deleteApplication_effects env name force w)
      as (new & _ & _ & H). eauto.
  - exists []. rewrite app_nil_r. crush; reflexivity.
Qed.

Lemma run_grows (history : list (Env * Command)) (w : World) :
  exists tail, log (run history w) = log w ++ tail.
Proof.
  revert w. induction history as [|[env c] rest IH]; intros w; simpl.
  - exists []. now rewrite app_nil_r.
  - destruct (exec_grows env c w) as [t1 H1].
    destruct (IH (exec env c w)) as [t2 H2].
    exists (t1 ++ t2). now rewrite H2, H1, app_assoc.
Qed.

Lemma used_stays (name : string) (history : list (Env * Command)) (w : World) :
  used name (log w) -> used name (log (run history w)).
Proof.
  intros (e & Hin & Hname). destruct (run_grows history w) as [tail H].
  exists e. split; auto. rewrite H. apply in_or_app. auto.
Qed.

Lemma available_iff_unused (name : string) (entries : list AppData) :
  (List.length (filter (fun n => String.eqb n name) (map appName entries)) =? 0)%nat
  = true <-> ~ used name entries.
Proof.
  unfold used. induction entries as [|a l IH]; simpl.
  - split; [intros _ (e & [] & _) | reflexivity].
  - destruct (String.eqb (appName a) name) eqn:E; simpl.
    + apply String.eqb_eq in E. split; [discriminate|].
      intros H. exfalso. apply H. exists a. auto.
    + apply String.eqb_neq in E. rewrite IH. split.
      * intros H (e & [<-|Hin] & Hn); [contradiction|]. apply H. eauto.
      * intros H (e & Hin & Hn). apply H. eauto.
Qed.

(** C10. With the feed reachable, [checkAppNameAvailability] returns [true]
    exactly when no event of the log bears the name.  No command removes an
    event ([deleteApplication] leaves the log as it is), so after any
    history of commands a name that some event bears is still reported
    unavailable, and an upload under that name ends with [process.exit(1)]
    without appending or publishing anything, in every environment. *)
Theorem used_name_unavailable_forever (env : Env) (name : string) (w : World)
  (history : list (Env * Command)) :
  (ipfs_ok env = true -> db_ok env = true ->
   exists b, checkAppNameAvailability env name w = (Ok b, w) /\
             (b = true <-> ~ used name (log w))) /\
  (forall env' force,
     log (snd (deleteApplication env' name force w)) = log w) /\
  (used name (log w) ->
   let w' := run history w in
   (exists tail, log w' = log w ++ tail) /\
   (ipfs_ok env = true -> db_ok env = true ->
    checkAppNameAvailability env name w' = (Ok false, w')) /\
   (forall fe fb optName optTag optDomain artifact,
      or_else optName fb = name ->
      uploadCommand env fe fb optName optTag optDomain artifact w' = (Exit 1, w'))).
Proof.
  split; [|split].
  - intros Hi Hd. eexists. split; [now apply checkAppNameAvailability_ok|].
    apply available_iff_unused.
  - intros env' force. crush; reflexivity.
  - intros Hused w'. subst w'.
    pose proof (used_stays name history w Hused) as Hstill.
    remember (run history w) as w' eqn:Ew.
    assert (Hfalse :
      (List.length (filter (fun n => String.eqb n name) (map appName (log w'))) =? 0)%nat
      = false).
    { destruct (_ =? 0)%nat eqn:E; auto.
      apply available_iff_unused in E. contradiction. }
    split; [|split].
    + rewrite Ew. apply run_grows.
    + intros Hi Hd. rewrite checkAppNameAvailability_ok by assumption.
      now rewrite Hfalse.
    + intros fe fb optName optTag optDomain artifact Hname.
      unfold uploadCommand.
      destruct fe, (ipfs_ok env) eqn:Hi, (db_ok env) eqn:Hd.
      all: run_cbv; rewrite ?Hname, ?Hi, ?Hd; run_cbv; rewrite ?Hfalse;
        run_cbv; reflexivity.
Qed.

Lemma used_name_unavailable_forever_witness :
  let w' := run [(env0, CDelete "blog" (Some true))] w_blog in
  (exists tail, log w' = log w_blog ++ tail) /\
  (ipfs_ok env0 = true -> db_ok env0 = true ->
   checkAppNameAvailability env0 "blog" w' = (Ok false, w')) /\
  (forall fe fb optName optTag optDomain artifact,
     or_else optName fb = "blog" ->
     uploadCommand env0 fe fb optName optTag optDomain artifact w' = (Exit 1, w')).
Proof.
  apply (used_name_unavailable_forever env0 "blog" w_blog
           [(env0, CDelete "blog" (Some true))]).
  exists blog_v1. split; [simpl; auto | reflexivity].
Defined.

(** * Further properties of the registry *)

(** ** The listing of applications *)

Lemma getAllApps_step_keys (m : JsMap.t) (e : AppData) :
  map fst (getAllApps_step m e) =
  if in_dec string_dec (appName e) (map fst m)
  then map fst m
  else map fst m ++ [appName e].
Proof.
  assert (Hset : forall v,
             map fst (JsMap.set (appName e) v m) =
             if in_dec string_dec (appName e) (map fst m)
             then map fst m else map fst m ++ [appName e]).
  { intros v. induction m as [|[k0 v0] m IH]; simpl.
    - reflexivity.
    - destruct (String.eqb k0 (appName e)) eqn:E; simpl.
      + apply String.eqb_eq in E. subst k0.
        destruct (string_dec (appName e) (appName e)); [reflexivity | contradiction].
      + apply String.eqb_neq in E. rewrite IH.
        destruct (string_dec k0 (appName e)); [contradiction|].
        destruct (in_dec string_dec (appName e) (map fst m)); reflexivity. }
  unfold getAllApps_step.
  destruct (JsMap.get (appName e) m) as [cur|] eqn:G.
  - destruct (timestamp cur <? timestamp e); [apply Hset|].
    destruct (in_dec string_dec (appName e) (map fst m)) as [|Hn]; auto.
    apply get_absent in Hn. congruence.
  - apply Hset.
Qed.

Lemma getAllApps_map_keys (entries : list AppData) :
  map fst (getAllApps_map entries) =
  rev (nodup string_dec (map appName entries)).
Proof.
  induction entries as [|e l IH]; auto.
  rewrite getAllApps_map_cons, getAllApps_step_keys, IH. simpl.
  destruct (in_dec string_dec (appName e) (map appName l)) as [Hin|Hn];
    destruct (in_dec string_dec (appName e)
                (rev (nodup string_dec (map appName l)))) as [Hin'|Hn'];
    simpl; auto.
  - exfalso. apply Hn'. apply in_rev. rewrite rev_involutive.
    now apply nodup_In.
  - exfalso. apply Hn. apply in_rev in Hin'. now apply nodup_In in Hin'.
Qed.

(** X1. [getAllApps] returns one entry per distinct application name of the
    log, each filed under its own name, in the order of the applications'
    most recent events, most recent first. *)
Theorem getAllApps_order (entries : list AppData) :
  map appName (getAllApps_pure entries) =
  rev (nodup string_dec (map appName entries)) /\
  NoDup (map appName (getAllApps_pure entries)) /\
  (forall name, In name (map appName (getAllApps_pure entries)) <->
                used name entries).
Proof.
  assert (Hnames : map appName (getAllApps_pure entries) =
                   map fst (getAllApps_map entries)).
  { unfold getAllApps_pure, JsMap.values.
    destruct (getAllApps_map_keyed entries) as [Hk _].
    induction (getAllApps_map entries) as [|[k v] m IH]; simpl; auto.
    rewrite (Hk k v) by (simpl; auto). f_equal. apply IH.
    intros k' v' Hin. apply Hk. simpl; auto. }
  rewrite Hnames. split; [apply getAllApps_map_keys|]. split.
  - apply (getAllApps_map_keyed entries).
  - intros name. rewrite getAllApps_map_keys, <- in_rev, nodup_In, in_map_iff.
    unfold used. split.
    + intros (e & He & Hin). eauto.
    + intros (e & Hin & He). eauto.
Qed.

(** ** Reading back what was appended *)

Lemma appended_selected (entries : list AppData) (e : AppData) :
  not_older (appName e) e entries ->
  selected (appName e) (entries ++ [e]) (List.length entries) e.
Proof.
  intros Hold. unfold selected.
  assert (Hn : nth_error (entries ++ [e]) (List.length entries) = Some e).
  { rewrite nth_error_app2 by lia. now rewrite Nat.sub_diag. }
  repeat split; auto.
  - intros j e' Hj He'. apply nth_error_In in Hj. apply in_app_or in Hj.
    destruct Hj as [Hj|[<-|[]]]; [now apply Hold | lia].
  - intros j e' Hlt Hj He'.
    assert (Hlen : (j < List.length (entries ++ [e]))%nat)
      by (apply nth_error_Some; congruence).
    rewrite length_app in Hlen. simpl in Hlen. lia.
Qed.

Lemma stale_append_keeps_selected (entries : list AppData) (e x : AppData)
  (i : nat) :
  selected (appName e) entries i x ->
  timestamp e < timestamp x ->
  selected (appName e) (entries ++ [e]) i x.
Proof.
  intros (Hi & Hx & Hle & Hlt) Hstale. unfold selected.
  assert (Hin : (i < List.length entries)%nat)
    by (apply nth_error_Some; congruence).
  repeat split; auto.
  - now rewrite nth_error_app1.
  - intros j e' Hj He'.
    destruct (Nat.lt_ge_cases j (List.length entries)) as [Hjl|Hjl].
    + rewrite nth_error_app1 in Hj by assumption. eauto.
    + rewrite nth_error_app2 in Hj by assumption.
      destruct (j - List.length entries)%nat as [|k]; simpl in Hj.
      * inversion Hj; subst. lia.
      * destruct k; discriminate.
  - intros j e' Hij Hj He'.
    destruct (Nat.lt_ge_cases j (List.length entries)) as [Hjl|Hjl].
    + rewrite nth_error_app1 in Hj by assumption. eauto.
    + rewrite nth_error_app2 in Hj by assumption.
      destruct (j - List.length entries)%nat as [|k]; simpl in Hj.
      * inversion Hj; subst. lia.
      * destruct k; discriminate.
Qed.

(** X2. Read your writes, if the clock allows.  With every collaborator
    available [storeAppData] appends the event; a following [getAllApps]
    reports it as the application's current state when no event of the
    application bears a later timestamp.  When some event of the
    application bears a later timestamp (the writer's clock is behind),
    the appended event is in the log but [getAllApps] keeps reporting the
    state it reported before. *)
Theorem append_then_read (env : Env) (e : AppData) (w : World) :
  available env ->
  exists w',
    storeAppData env e w = (Ok true, w') /\
    log w' = log w ++ [e] /\
    getAllApps env w' = (Ok (getAllApps_pure (log w')), w') /\
    (not_older (appName e) e (log w) ->
     find_app (appName e) (getAllApps_pure (log w')) = Some e) /\
    ((exists e', In e' (log w) /\ appName e' = appName e /\
                 timestamp e < timestamp e') ->
     find_app (appName e) (getAllApps_pure (log w')) =
     find_app (appName e) (getAllApps_pure (log w)) /\
     find_app (appName e) (getAllApps_pure (log w')) <> Some e).
Proof.
  intros Hav. pose proof Hav as (Hi & _ & Hd & _).
  eexists. split; [now apply storeAppData_ok|]. cbn [log].
  split; [reflexivity|]. split; [now apply getAllApps_ok|]. split.
  - intros Hold. apply find_app_selected. eexists.
    now apply appended_selected.
  - intros (e' & Hin & Hname & Hlate).
    destruct (find_app (appName e) (getAllApps_pure (log w))) as [x|] eqn:F.
    + apply find_app_selected in F. destruct F as [i Hsel].
      assert (Hx : timestamp e < timestamp x).
      { destruct Hsel as (_ & _ & Hle & _).
        apply In_nth_error in Hin. destruct Hin as [j Hj].
        specialize (Hle j e' Hj Hname). lia. }
      split.
      * apply find_app_selected. exists i.
        now apply stale_append_keeps_selected.
      * assert (F' : find_app (appName e) (getAllApps_pure (log w ++ [e])) = Some x).
        { apply find_app_selected. exists i.
          now apply stale_append_keeps_selected. }
        rewrite F'. intros E. inversion E; subst. lia.
    + exfalso. rewrite find_app_get in F.
      pose proof (getAllApps_map_selects (log w) (appName e)) as H.
      rewrite F in H. now apply (H e').
Qed.

Lemma append_then_read_witness :
  exists w',
    storeAppData env0 (stoppedClone blog_v2 1001) w_blog = (Ok true, w') /\
    log w' = log w_blog ++ [stoppedClone blog_v2 1001] /\
    getAllApps env0 w' = (Ok (getAllApps_pure (log w')), w') /\
    (not_older "blog" (stoppedClone blog_v2 1001) (log w_blog) ->
     find_app "blog" (getAllApps_pure (log w')) = Some (stoppedClone blog_v2 1001)) /\
    ((exists e', In e' (log w_blog) /\ appName e' = "blog" /\
                 timestamp (stoppedClone blog_v2 1001) < timestamp e') ->
     find_app "blog" (getAllApps_pure (log w')) =
     find_app "blog" (getAllApps_pure (log w_blog)) /\
     find_app "blog" (getAllApps_pure (log w')) <> Some (stoppedClone blog_v2 1001)).
Proof.
  apply (append_then_read env0 (stoppedClone blog_v2 1001) w_blog).
  unfold available. simpl. repeat split.
Defined.

(** ** The newest event and the two views of an application *)

Section SortNewest.

Variable A : Type.
Variable key : A -> Z.

Lemma sort_insert_first (x : A) (l : list A) :
  (forall y, In y l -> key y <= key x) ->
  sort_insert (fun a b => key b - key a) x l = x :: l.
Proof.
  destruct l as [|y l]; simpl; auto. intros H.
  assert (key y <= key x) by (apply H; auto).
  destruct (key y - key x <=? 0) eqn:E; auto.
  apply Z.leb_gt in E. lia.
Qed.

Lemma js_sort_newest_first (xs ys : list A) (x : A) :
  (forall y, In y (xs ++ ys) -> key y < key x) ->
  js_sort (fun a b => key b - key a) (xs ++ x :: ys) =
  x :: js_sort (fun a b => key b - key a) (xs ++ ys).
Proof.
  induction xs as [|a xs IH]; simpl; intros H.
  - apply sort_insert_first. intros y Hy.
    apply (Permutation_in _ (js_sort_perm A key ys)) in Hy.
    apply H in Hy. lia.
  - rewrite IH by (intros y Hy; apply H; auto). simpl.
    assert (key a < key x) by (apply H; auto).
    destruct (key x - key a <=? 0) eqn:E; auto.
    apply Z.leb_le in E. lia.
Qed.

End SortNewest.

Lemma sortedVersions_newest_first (name : string) (l1 l2 : list AppData)
  (e : AppData) :
  appName e = name -> newest name e (l1 ++ l2) ->
  sortedVersions name (l1 ++ e :: l2) =
  toVersion e :: sortedVersions name (l1 ++ l2).
Proof.
  intros Hname Hnew. unfold sortedVersions.
  rewrite !filter_app. simpl. unfold is_app at 2.
  rewrite Hname, String.eqb_refl. rewrite !map_app. simpl.
  apply (js_sort_newest_first VersionEntry vtimestamp).
  intros y Hy. rewrite <- map_app, <- filter_app in Hy.
  apply in_map_iff in Hy. destruct Hy as (e' & <- & He').
  apply filter_In in He'. destruct He' as [Hin Happ].
  simpl. apply Hnew; auto. now apply String.eqb_eq.
Qed.

Lemma getAppVersions_newest_first (name : string) (l1 l2 : list AppData)
  (e : AppData) :
  appName e = name -> deployed e = true -> newest name e (l1 ++ l2) ->
  getAppVersions_pure name (l1 ++ e :: l2) =
  toVersion e :: map (setDeployed false) (sortedVersions name (l1 ++ l2)).
Proof.
  intros Hname Hdep Hnew. unfold getAppVersions_pure.
  rewrite sortedVersions_newest_first by assumption.
  unfold markLatestDeployed. simpl. rewrite Hdep. simpl.
  unfold setDeployed, toVersion. simpl. now rewrite Hdep.
Qed.

(** X3. The two views agree on a newest deployed event.  If one event of the
    application is strictly newer than all its other events and is marked
    deployed, [getAllApps] reports it as the current state and
    [getAppVersions] lists it first, with its version, cid and timestamp,
    as the only deployed entry.  The entries after it are the application's
    other events, one entry each with the event's version, cid and
    timestamp, all with [deployed = false] whatever the events say, all
    strictly older than the first, in descending order of timestamp. *)
Theorem views_agree_on_newest (env : Env) (w : World) (name : string)
  (l1 l2 : list AppData) (e : AppData) :
  ipfs_ok env = true -> db_ok env = true ->
  log w = l1 ++ e :: l2 ->
  appName e = name -> deployed e = true -> newest name e (l1 ++ l2) ->
  exists apps others,
    getAllApps env w = (Ok apps, w) /\
    find_app name apps = Some e /\
    getAppVersions env name w =
    (Ok ({| tag := version e; vcid := cid e; vtimestamp := timestamp e;
            vdeployed := true |} :: others), w) /\
    (forall v, In v others ->
               vdeployed v = false /\ vtimestamp v < timestamp e) /\
    deployedCount
      ({| tag := version e; vcid := cid e; vtimestamp := timestamp e;
          vdeployed := true |} :: others) = 1%nat /\
    descending
      ({| tag := version e; vcid := cid e; vtimestamp := timestamp e;
          vdeployed := true |} :: others) /\
    Permutation
      (map (fun v => (tag v, vcid v, vtimestamp v)) others)
      (map (fun e' => (version e', cid e', timestamp e'))
         (filter (fun e' => String.eqb (appName e') name) (l1 ++ l2))) /\
    others = map (setDeployed false) (sortedVersions name (l1 ++ l2)).
Proof.
  intros Hi Hd Hlog Hname Hdep Hnew.
  exists (getAllApps_pure (log w)),
    (map (setDeployed false) (sortedVersions name (l1 ++ l2))).
  assert (Hold : forall v,
             In v (map (setDeployed false) (sortedVersions name (l1 ++ l2))) ->
             vdeployed v = false /\ vtimestamp v < timestamp e).
  { intros v Hv. split; [now apply cleared_not_deployed in Hv|].
    apply in_map_iff in Hv. destruct Hv as (u & <- & Hu).
    apply sortedVersions_In in Hu. destruct Hu as (e' & He' & Hn & ->).
    simpl. now apply Hnew. }
  split; [now apply getAllApps_ok|]. split; [|split; [|split; [|split; [|split; [|split]]]]].
  - rewrite Hlog. apply find_app_selected. exists (List.length l1).
    unfold selected.
    assert (Hn : nth_error (l1 ++ e :: l2) (List.length l1) = Some e).
    { rewrite nth_error_app2 by lia. now rewrite Nat.sub_diag. }
    repeat split; auto.
    + intros j e' Hj He'.
      destruct (Nat.eq_dec j (List.length l1)) as [->|Hne].
      * rewrite Hn in Hj. inversion Hj. lia.
      * assert (In e' (l1 ++ l2)).
        { destruct (Nat.lt_ge_cases j (List.length l1)) as [Hlt|Hge].
          - rewrite nth_error_app1 in Hj by assumption.
            apply in_or_app. left. eapply nth_error_In; eauto.
          - rewrite nth_error_app2 in Hj by assumption.
            destruct (j - List.length l1)%nat as [|k] eqn:Ek; [lia|].
            simpl in Hj. apply in_or_app. right. eapply nth_error_In; eauto. }
        specialize (Hnew e' H He'). lia.
    + intros j e' Hlt Hj He'.
      rewrite nth_error_app2 in Hj by lia.
      destruct (j - List.length l1)%nat as [|k] eqn:Ek; [lia|].
      simpl in Hj. apply Hnew; auto.
      apply in_or_app. right. eapply nth_error_In; eauto.
  - rewrite getAppVersions_ok by assumption. rewrite Hlog.
    rewrite getAppVersions_newest_first by assumption.
    unfold toVersion. now rewrite Hdep.
  - exact Hold.
  - unfold deployedCount. simpl. now rewrite cleared_count.
  - constructor.
    + apply (descending_by_keys (sortedVersions name (l1 ++ l2)));
        [rewrite map_map; reflexivity | apply sortedVersions_descending].
    + apply Forall_forall. intros v Hv. apply Hold in Hv. simpl. lia.
  - rewrite map_map. simpl.
    change (map (fun x : VersionEntry => (tag x, vcid x, vtimestamp x))
              (sortedVersions name (l1 ++ l2)))
      with (map versionKey (sortedVersions name (l1 ++ l2))).
    rewrite (Permutation_map versionKey (sortedVersions_perm name (l1 ++ l2))).
    rewrite map_map. apply Permutation_refl.
  - reflexivity.
Qed.

Lemma views_agree_on_newest_witness :
  exists apps others,
    getAllApps env0 w_blog = (Ok apps, w_blog) /\
    find_app "blog" apps = Some blog_v2 /\
    getAppVersions env0 "blog" w_blog =
    (Ok ({| tag := version blog_v2; vcid := cid blog_v2;
            vtimestamp := timestamp blog_v2; vdeployed := true |} :: others),
     w_blog) /\
    (forall v, In v others ->
               vdeployed v = false /\ vtimestamp v < timestamp blog_v2) /\
    deployedCount
      ({| tag := version blog_v2; vcid := cid blog_v2;
          vtimestamp := timestamp blog_v2; vdeployed := true |} :: others) = 1%nat /\
    descending
      ({| tag := version blog_v2; vcid := cid blog_v2;
          vtimestamp := timestamp blog_v2; vdeployed := true |} :: others) /\
    Permutation
      (map (fun v => (tag v, vcid v, vtimestamp v)) others)
      (map (fun e' => (version e', cid e', timestamp e'))
         (filter (fun e' => String.eqb (appName e') "blog") ([blog_v1] ++ []))) /\
    others = map (setDeployed false) (sortedVersions "blog" ([blog_v1] ++ [])).
Proof.
  apply (views_agree_on_newest env0 w_blog "blog" [blog_v1] [] blog_v2);
    try reflexivity.
  intros e' [<-|[]] _. reflexivity.
Defined.

(** ** Rolling back twice *)

Lemma rollbackToVersion_run (env : Env) (name : string)
  (versionTag domain0 : option string) (force : option bool) (w : World)
  (target : VersionEntry) :
  available env ->
  rollbackTarget versionTag (getAppVersions_pure name (log w)) = inr target ->
  getAppVersions_pure name (log w) <> [] ->
  exists w',
    rollbackToVersion env name versionTag domain0 force w =
    (Ok {| success := true; message := None;
           r_version := Some (tag target); r_cid := Some (vcid target) |}, w') /\
    log w' = log w ++
      [ {| appName := name; cid := vcid target; version := tag target;
           timestamp := clock env (S (ticks w)); deployed := true;
           domain := Some (or_else domain0 (name ++ "." ++ defaultDomain env));
           status := running; isRollback := None |} ] /\
    ticks w' = S (S (S (ticks w))).
Proof.
  intros Hav Ht Hne. eexists. env_ok Hav.
  destruct (getAppVersions_pure name (log w)) as [|v0 vs]; [congruence|].
  rewrite Ht. simpl Nat.eqb. run_cbv.
  split; [reflexivity|]. split; reflexivity.
Qed.

Lemma cleared_all_kept (l : list VersionEntry) :
  filter (fun v => negb (vdeployed v)) (map (setDeployed false) l) =
  map (setDeployed false) l.
Proof.
  induction l as [|a l IH]; simpl; auto. now rewrite IH.
Qed.

Lemma cleared_descending (l : list VersionEntry) :
  descending l -> descending (map (setDeployed false) l).
Proof.
  apply descending_by_keys. rewrite map_map. reflexivity.
Qed.

(** After an event of the application that is deployed and strictly the
    newest, a rollback without tag aims at the version that was the newest
    before it. *)
Lemma rollbackTarget_after_newest (name : string) (l : list AppData)
  (e : AppData) (h : VersionEntry) (rest : list VersionEntry) :
  appName e = name -> deployed e = true -> newest name e l ->
  sortedVersions name l = h :: rest ->
  rollbackTarget None (getAppVersions_pure name (l ++ [e])) =
  inr (setDeployed false h).
Proof.
  intros Hname Hdep Hnew Hs.
  rewrite (getAppVersions_newest_first name l [] e) by
    (rewrite ?app_nil_r; assumption).
  rewrite app_nil_r. unfold rollbackTarget. simpl. rewrite Hdep. simpl.
  rewrite cleared_all_kept.
  pose proof (js_sort_idem VersionEntry vtimestamp
                (map (setDeployed false) (sortedVersions name l))
                (cleared_descending _ (sortedVersions_descending name l))) as Hid.
  fold byTimestampDesc in Hid. rewrite Hid, Hs. reflexivity.
Qed.

(** X4. Rolling back twice returns to where one was.  With every
    collaborator available and a clock ahead of the application's events, if
    a first rollback without tag succeeds, a second one redeploys the
    version that headed the version list before the first: the [version]
    and [cid] it returns are those of the application's newest event at that
    time. *)
Theorem rollback_twice (env : Env) (name : string)
  (domain1 domain2 : option string) (force1 force2 : option bool) (w : World)
  (d : VersionEntry) (rest : list VersionEntry) :
  available env ->
  getAppVersions_pure name (log w) = d :: rest ->
  (exists v, In v (d :: rest) /\ vdeployed v = false) ->
  (forall e', In e' (log w) -> appName e' = name ->
              timestamp e' < clock env (S (ticks w))) ->
  exists r1 w1 r2 w2,
    rollbackToVersion env name None domain1 force1 w = (Ok r1, w1) /\
    success r1 = true /\
    rollbackToVersion env name None domain2 force2 w1 = (Ok r2, w2) /\
    success r2 = true /\
    r_version r2 = Some (tag d) /\ r_cid r2 = Some (vcid d) /\
    List.length (log w2) = S (S (List.length (log w))).
Proof.
  intros Hav Hvs Hex Hclock.
  assert (Hex' : exists v, In v (getAppVersions_pure name (log w)) /\
                           vdeployed v = false) by now rewrite Hvs.
  destruct (rollbackTarget_previous _ Hex') as (t1 & Ht1 & _).
  destruct (rollbackToVersion_run env name None domain1 force1 w t1 Hav Ht1)
    as (w1 & Hrun1 & Hlog1 & _); [rewrite Hvs; discriminate|].
  set (e1 := {| appName := name; cid := vcid t1; version := tag t1;
                timestamp := clock env (S (ticks w)); deployed := true;
                domain := Some (or_else domain1 (name ++ "." ++ defaultDomain env));
                status := running; isRollback := None |}) in *.
  destruct (sortedVersions name (log w)) as [|h srest] eqn:Hs.
  { unfold getAppVersions_pure in Hvs. rewrite Hs in Hvs. discriminate. }
  assert (Hkey : versionKey d = versionKey h).
  { pose proof (markLatestDeployed_keys (sortedVersions name (log w))) as Hk.
    fold (getAppVersions_pure name (log w)) in Hk. rewrite Hvs, Hs in Hk.
    cbn [map] in Hk. inversion Hk. unfold versionKey. congruence. }
  assert (Ht2 : rollbackTarget None (getAppVersions_pure name (log w1)) =
                inr (setDeployed false h)).
  { rewrite Hlog1.
    apply (rollbackTarget_after_newest name (log w) e1 h srest); auto. }
  destruct (rollbackToVersion_run env name None domain2 force2 w1
              (setDeployed false h) Hav Ht2) as (w2 & Hrun2 & Hlog2 & _).
  { rewrite Hlog1.
    rewrite (getAppVersions_newest_first name (log w) [] e1);
      rewrite ?app_nil_r; auto. discriminate. }
  unfold versionKey in Hkey. inversion Hkey as [[Htag Hcid Hts]].
  do 4 eexists. split; [exact Hrun1|]. split; [reflexivity|].
  split; [exact Hrun2|]. split; [reflexivity|]. simpl.
  rewrite Htag, Hcid. repeat split.
  rewrite Hlog2, Hlog1, !length_app. simpl. lia.
Qed.

Lemma rollback_twice_witness :
  exists r1 w1 r2 w2,
    rollbackToVersion env0 "blog" None None None w_blog = (Ok r1, w1) /\
    success r1 = true /\
    rollbackToVersion env0 "blog" None None None w1 = (Ok r2, w2) /\
    success r2 = true /\
    r_version r2 = Some "v2" /\ r_cid r2 = Some "cid2" /\
    List.length (log w2) = S (S (List.length (log w_blog))).
Proof.
  apply (rollback_twice env0 "blog" None None None None w_blog
           {| tag := "v2"; vcid := "cid2"; vtimestamp := 20; vdeployed := true |}
           [ {| tag := "v1"; vcid := "cid1"; vtimestamp := 10; vdeployed := false |} ]).
  - unfold available. simpl. repeat split.
  - reflexivity.
  - eexists. split; [right; left; reflexivity | reflexivity].
  - intros e' [<-|[<-|[]]] _; reflexivity.
Defined.

(** ** Strings *)

Lemma length_append (a b : string) :
  String.length (a ++ b) = (String.length a + String.length b)%nat.
Proof.
  induction a as [|c a IH]; simpl; auto.
Qed.

Lemma substring_all (b : string) : substring 0 (String.length b) b = b.
Proof.
  induction b as [|c b IH]; simpl; auto. now rewrite IH.
Qed.

Lemma substring_skip (a b : string) :
  substring (String.length a) (String.length b) (a ++ b) = b.
Proof.
  induction a as [|c a IH]; simpl; auto using substring_all.
Qed.

Lemma endsWith_append (a b : string) : endsWith (a ++ b) b = true.
Proof.
  unfold endsWith. rewrite length_append.
  replace (String.length a + String.length b - String.length b)%nat
    with (String.length a) by lia.
  rewrite substring_skip, String.eqb_refl.
  assert (H : (String.length b <=? String.length a + String.length b)%nat = true)
    by (apply Nat.leb_le; lia).
  now rewrite H.
Qed.

Lemma endsWith_nonempty (s suffix : string) :
  endsWith s ("." ++ suffix) = true -> s <> "".
Proof.
  intros H ->. discriminate.
Qed.

Lemma dotted_nonempty (a b : string) : (a ++ "." ++ b)%string <> "".
Proof.
  destruct a; discriminate.
Qed.

Lemma or_else_given (s dflt : string) : s <> "" -> or_else (Some s) dflt = s.
Proof.
  intros H. unfold or_else. apply String.eqb_neq in H. now rewrite H.
Qed.

Lemma or_else_nonempty (x : option string) (dflt : string) :
  dflt <> "" -> or_else x dflt <> "".
Proof.
  intros H. unfold or_else. destruct x as [s|]; auto.
  destruct (String.eqb s "") eqn:E; auto. now apply String.eqb_neq.
Qed.

(** ** The domain of an announced deployment *)

Ltac appended_leaf H :=
  cbn [log trace ticks] in H;
  first
    [ exfalso; apply (f_equal (@List.length AppData)) in H;
      rewrite length_app in H; simpl in H; lia
    | apply app_inv_head in H; injection H as H; subst ].

(** X5. Whatever domain it is given, [announceDeployment] stores an event
    whose domain ends in [.<defaultDomain>]: a domain that already ends so
    is kept, any other is cut at its first dot and given the suffix, and a
    missing or empty one becomes [<appName>.<defaultDomain>].  The event
    bears the given name and CID, the given version or "latest", and is
    deployed and running.  At most one event is appended. *)
Theorem announceDeployment_domain (env : Env) (cid0 name : string)
  (version0 domain0 : option string) (w : World) :
  (log (snd (announceDeployment env cid0 name version0 domain0 w)) = log w \/
   exists e, log (snd (announceDeployment env cid0 name version0 domain0 w)) =
             log w ++ [e]) /\
  forall e,
    log (snd (announceDeployment env cid0 name version0 domain0 w)) =
    log w ++ [e] ->
    appName e = name /\ cid e = cid0 /\
    version e = default_arg version0 "latest" /\
    deployed e = true /\ status e = running /\
    exists dom,
      domain e = Some dom /\
      endsWith dom ("." ++ defaultDomain env) = true /\
      let given := or_else domain0 (name ++ "." ++ defaultDomain env) in
      (endsWith given ("." ++ defaultDomain env) = true -> dom = given) /\
      (endsWith given ("." ++ defaultDomain env) = false ->
       dom = (split_dot_head given ++ "." ++ defaultDomain env)%string).
Proof.
  assert (Hgiven : or_else (Some match domain0 with Some a => a | None => "" end)
                     (name ++ "." ++ defaultDomain env) =
                   or_else domain0 (name ++ "." ++ defaultDomain env)).
  { destruct domain0; reflexivity. }
  split.
  - crush; cbn [log trace ticks]; eauto.
  - intros e. run_cbv. rewrite Hgiven.
    set (given := or_else domain0 (name ++ "." ++ defaultDomain env)).
    destruct (endsWith given ("." ++ defaultDomain env)) eqn:Hends.
    + crush; intros H; appended_leaf H; cbn;
        repeat (split; [reflexivity|]);
        exists given; repeat split;
        first [ exact Hends | reflexivity | discriminate ].
    + crush; intros H; appended_leaf H; cbn;
        repeat (split; [reflexivity|]);
        eexists; (split; [reflexivity|]);
        (split; [apply (endsWith_append _ ("." ++ defaultDomain env))|]);
        (split; [discriminate | reflexivity]).
Qed.

Lemma announceDeployment_domain_witness :
  exists w' e,
    announceDeployment env0 "cidX" "shop" None (Some "a.b.example.com") w_blog =
    (Ok true, w') /\
    log w' = log w_blog ++ [e] /\
    domain e = Some "a.debros.sol".
Proof.
  destruct (announceDeployment_domain env0 "cidX" "shop" None
              (Some "a.b.example.com") w_blog) as [_ H].
  do 2 eexists. split; [reflexivity|]. split; [reflexivity|].
  destruct (H _ eq_refl) as (_ & _ & _ & _ & _ & dom & Hd & _ & _ & Hcut).
  rewrite Hd. f_equal. apply Hcut. reflexivity.
Defined.

(** ** Uploading *)

(** X6. A first upload takes the name.  With every collaborator available,
    an existing folder, a built artifact and a name no event bears,
    [uploadCommand] completes and appends exactly one event: deployed and
    running, with the artifact's CID, the tag, and the domain
    [<subdomain>.<defaultDomain>], where the subdomain is the [--domain]
    option or the name, without a trailing [.debros.sol].  From then on the
    name is reported unavailable. *)
Theorem upload_takes_name (env : Env) (folderBase : string)
  (optName optTag optDomain : option string) (cid0 : string) (w : World) :
  available env ->
  let name := or_else optName folderBase in
  ~ used name (log w) ->
  exists w',
    uploadCommand env true folderBase optName optTag optDomain (Ok cid0) w =
    (Ok tt, w') /\
    log w' = log w ++
      [ {| appName := name; cid := cid0; version := or_else optTag "latest";
           timestamp := clock env (S (ticks w)); deployed := true;
           domain := Some (strip_debros_sol (or_else optDomain name)
                           ++ "." ++ defaultDomain env)%string;
           status := running; isRollback := None |} ] /\
    checkAppNameAvailability env name w' = (Ok false, w').
Proof.
  intros Hav name Hfree. subst name.
  pose proof Hav as (Hi & Hl & Hd & Ha & Hp).
  apply available_iff_unused in Hfree.
  set (name := or_else optName folderBase) in *.
  set (dom := (strip_debros_sol (or_else optDomain name) ++ "." ++
               defaultDomain env)%string).
  assert (Hdom : or_else (Some dom) (name ++ "." ++ defaultDomain env) = dom)
    by (apply or_else_given, dotted_nonempty).
  assert (Hends : endsWith dom ("." ++ defaultDomain env) = true)
    by apply endsWith_append.
  eexists. unfold uploadCommand. run_cbv.
  rewrite ?Hi, ?Hl, ?Hd, ?Ha, ?Hp. run_cbv.
  fold name. rewrite Hfree. run_cbv. fold dom. rewrite Hdom, Hends. run_cbv.
  split; [reflexivity|]. split; [reflexivity|].
  cbn [log]. rewrite map_app, filter_app. cbn [map filter appName].
  rewrite String.eqb_refl, length_app. cbn [List.length].
  match goal with
  | |- context [(?n + 1 =? 0)%nat] =>
      replace (n + 1 =? 0)%nat with false
        by (symmetry; apply Nat.eqb_neq; lia)
  end.
  reflexivity.
Qed.

Lemma upload_takes_name_witness :
  exists w',
    uploadCommand env0 true "shop" None (Some "latest") (Some "Store.DeBros.SOL")
      (Ok "cidX") w_blog = (Ok tt, w') /\
    log w' = log w_blog ++
      [ {| appName := "shop"; cid := "cidX"; version := "latest";
           timestamp := 1001; deployed := true;
           domain := Some "Store.debros.sol";
           status := running; isRollback := None |} ] /\
    checkAppNameAvailability env0 "shop" w' = (Ok false, w').
Proof.
  apply (upload_takes_name env0 "shop" None (Some "latest")
           (Some "Store.DeBros.SOL") "cidX" w_blog).
  - unfold available. simpl. repeat split.
  - intros (e & [<-|[<-|[]]] & He); discriminate.
Defined.

(** ** The domain carried by start and by rollback *)

(** X7. Start keeps the domain, the rollback command does not.  In every
    environment, an event appended by [startCommand] bears the domain of the
    application's current state when that state has a non-empty one, while
    an event appended by [rollbackCommand] always bears
    [<appName>.<defaultDomain>], whatever domain the application had. *)
Theorem start_keeps_domain_rollback_resets (env : Env) (name : string)
  (w : World) :
  (forall optVersion e current dom,
     log (snd (startCommand env name optVersion w)) = log w ++ [e] ->
     find_app name (getAllApps_pure (log w)) = Some current ->
     domain current = Some dom -> dom <> "" ->
     domain e = Some dom /\ version e = or_else optVersion "latest") /\
  (forall versionTag force e,
     log (snd (rollbackCommand env name versionTag force w)) = log w ++ [e] ->
     domain e = Some (name ++ "." ++ defaultDomain env)%string).
Proof.
  split.
  - intros optVersion e current dom Hlog Hcur Hdom Hne. revert Hlog Hcur.
    unfold startCommand.
    crush; intros H Hc; appended_leaf H;
      try discriminate; inversion Hc; subst; cbn [domain version];
      rewrite Hdom, (or_else_given dom _ Hne); split; reflexivity.
  - intros versionTag force e.
    assert (Hsame : or_else (Some (name ++ "." ++ defaultDomain env)%string)
                      (name ++ "." ++ defaultDomain env) =
                    (name ++ "." ++ defaultDomain env)%string)
      by (apply or_else_given, dotted_nonempty).
    unfold rollbackCommand. run_cbv. rewrite Hsame.
    crush; early_result; intros H; appended_leaf H; reflexivity.
Qed.

Lemma start_keeps_domain_rollback_resets_witness :
  (exists e,
     log (snd (startCommand env0 "blog" (Some "v1") w_journal)) =
     log w_journal ++ [e] /\
     domain e = Some "journal.debros.sol" /\ version e = "v1") /\
  (exists e,
     log (snd (rollbackCommand env0 "blog" None None w_journal)) =
     log w_journal ++ [e] /\
     domain e = Some "blog.debros.sol").
Proof.
  destruct (start_keeps_domain_rollback_resets env0 "blog" w_journal)
    as [Hstart Hroll].
  split.
  - eexists. split; [reflexivity|].
    apply (Hstart (Some "v1") _ blog_journal "journal.debros.sol");
      [reflexivity | reflexivity | reflexivity | discriminate].
  - eexists. split; [reflexivity|].
    apply (Hroll None None). reflexivity.
Defined.

(** ** What listeners receive *)

Lemma app_self_nil {A : Type} (l x : list A) : l = l ++ x -> x = [].
Proof.
  intros H. rewrite <- (app_nil_r l) in H at 1.
  apply app_inv_head in H. now symmetry.
Qed.

Ltac added_leaf H :=
  unfold added in H; cbn [log trace ticks] in H; rewrite <- ?app_assoc in H;
  first [ apply app_self_nil in H | apply app_inv_head in H ];
  subst.

Ltac in_cases H :=
  simpl in H;
  repeat match type of H with
         | _ \/ _ => destruct H as [H|H]
         end;
  try contradiction; try discriminate; inversion H; subst; clear H.

Ltac delivered_leaf Hne :=
  let topic := fresh "topic" in
  let m := fresh "m" in
  let Hin := fresh "Hin" in
  intros topic m Hin; in_cases Hin; cbn -[or_else];
  try discriminate;
  (split; [reflexivity|]); (split; [reflexivity|]);
  let e := fresh "e" in
  let He := fresh "He" in
  intros e He; in_cases He; cbn -[or_else];
  rewrite (or_else_given _ _ Hne); repeat split.

Ltac ignored_leaf :=
  let topic := fresh "topic" in
  let m := fresh "m" in
  let Hin := fresh "Hin" in
  intros topic m Hin; in_cases Hin; reflexivity.

(** X8. Listeners hear deployments and rollbacks, and nothing else.  In
    every environment, each message that [announceDeployment] or
    [rollbackToVersion] publishes on [debros-deploy] gets through the
    handler of [listenForDeployments], and the name, CID, version and domain
    handed to the callback are those of the event the command appends; the
    update published on [debros-app-data] does not get through.  No message
    published by [startApplication], [stopApplication] or
    [deleteApplication] gets through. *)
Theorem deployments_reach_listeners (env : Env) (w : World)
  (new : list Effect) :
  (forall cid0 name version0 domain0,
     added w (snd (announceDeployment env cid0 name version0 domain0 w)) new ->
     delivered env name new) /\
  (forall name versionTag domain0 force,
     added w (snd (rollbackToVersion env name versionTag domain0 force w)) new ->
     delivered env name new) /\
  (forall name versionTag,
     added w (snd (startApplication env name versionTag w)) new ->
     ignored env new) /\
  (forall name force,
     added w (snd (stopApplication env name force w)) new ->
     ignored env new) /\
  (forall name force,
     added w (snd (deleteApplication env name force w)) new ->
     ignored env new).
Proof.
  split; [|split; [|split; [|split]]].
  - intros cid0 name version0 domain0. run_cbv.
    match goal with
    | |- context [if ?b then ?x else ?y] =>
        match x with
        | (split_dot_head _ ++ _)%string =>
            assert (Hne : (if b then x else y) <> "");
            [ destruct b eqn:Hb;
              [ apply dotted_nonempty
              | apply negb_false_iff in Hb;
                apply (endsWith_nonempty _ _ Hb) ]
            | set (dom := if b then x else y) in *; clearbody dom ]
        end
    end.
    crush; intros H; added_leaf H; delivered_leaf Hne.
  - intros name versionTag domain0 force.
    assert (Hne : or_else domain0 (name ++ "." ++ defaultDomain env) <> "")
      by (apply or_else_nonempty, dotted_nonempty).
    crush; early_result; intros H; added_leaf H; delivered_leaf Hne.
  - intros name versionTag.
    crush; intros H; added_leaf H; ignored_leaf.
  - intros name force.
    crush; intros H; added_leaf H; ignored_leaf.
  - intros name force.
    crush; intros H; added_leaf H; ignored_leaf.
Qed.

Lemma deployments_reach_listeners_witness :
  exists new,
    added w_blog (snd (rollbackToVersion env0 "blog" None None None w_blog)) new /\
    List.length new = 3%nat /\
    delivered env0 "blog" new.
Proof.
  eexists. split; [unfold added; simpl; reflexivity|].
  split; [reflexivity|].
  refine (proj1 (proj2 (deployments_reach_listeners env0 w_blog _))
            "blog" None None None _).
  unfold added. reflexivity.
Defined.

(** ** Storing an event *)

(** X9. [storeAppData] in every environment.  It leaves the log as it was
    or appends the one event, never anything else.  It returns [true] only
    after appending.  It throws without appending or publishing when the
    node is unreachable, the feed cannot be opened or the append fails,
    with the error of the step that failed.  When these three steps
    succeed and there is a pubsub handle, it publishes the update: if the
    publish succeeds it returns [true]; if the publish fails it throws the
    publish error, and the event is in the log all the same.  It throws
    after appending exactly in that case.  Without a pubsub handle the
    event is appended silently and the call succeeds. *)
Theorem storeAppData_outcomes (env : Env) (e : AppData) (w : World) :
  let o := fst (storeAppData env e w) in
  let w' := snd (storeAppData env e w) in
  (log w' = log w \/ log w' = log w ++ [e]) /\
  (o = Ok true -> log w' = log w ++ [e]) /\
  (log w' = log w -> exists msg, o = Throw msg /\ trace w' = trace w) /\
  (log w' = log w ++ [e] -> o <> Ok true ->
   o = Throw (publish_err env) /\ libp2p_up env = true /\
   publish_ok env "debros-app-data" = false /\
   trace w' = trace w ++ [EAppend e]) /\
  (ipfs_ok env = true -> db_ok env = true -> add_ok env = true ->
   libp2p_up env = false ->
   o = Ok true /\ trace w' = trace w ++ [EAppend e]) /\
  (ipfs_ok env = false ->
   storeAppData env e w = (Throw (ipfs_err env), w)) /\
  (ipfs_ok env = true -> db_ok env = false ->
   storeAppData env e w = (Throw (db_err env), w)) /\
  (ipfs_ok env = true -> db_ok env = true -> add_ok env = false ->
   storeAppData env e w = (Throw (add_err env), w)) /\
  (ipfs_ok env = true -> db_ok env = true -> add_ok env = true ->
   libp2p_up env = true ->
   (publish_ok env "debros-app-data" = false ->
    o = Throw (publish_err env) /\
    log w' = log w ++ [e] /\
    trace w' = trace w ++ [EAppend e]) /\
   (publish_ok env "debros-app-data" = true ->
    o = Ok true /\
    log w' = log w ++ [e] /\
    trace w' = trace w ++
      [EAppend e;
       EPublish "debros-app-data" (MAppDataUpdate e (clock env (ticks w)))])) /\
  ((log w' = log w ++ [e] /\ o <> Ok true) <->
   (ipfs_ok env = true /\ db_ok env = true /\ add_ok env = true /\
    libp2p_up env = true /\ publish_ok env "debros-app-data" = false)).
Proof.
  cbv zeta.
  assert (Hgrow : log w = log w ++ [e] -> False).
  { intros H. apply (f_equal (@List.length AppData)) in H.
    rewrite length_app in H. simpl in H. lia. }
  split; [|split; [|split; [|split; [|split; [|split; [|split; [|split; [|split]]]]]]]].
  - crush; cbn [log]; auto.
  - crush; cbn [log]; intros H; auto; discriminate.
  - crush; cbn [log trace]; intros H;
      try (exfalso; symmetry in H; now apply Hgrow); eauto.
  - crush; cbn [log trace]; intros Hl Hne;
      try (exfalso; now apply Hgrow);
      try (exfalso; now apply Hne);
      repeat split; congruence.
  - intros Hi Hd Ha Hl. run_cbv. rewrite Hi, Hd, Ha, Hl. split; reflexivity.
  - intros Hi. run_cbv. now rewrite Hi.
  - intros Hi Hd. run_cbv. now rewrite Hi, Hd.
  - intros Hi Hd Ha. run_cbv. now rewrite Hi, Hd, Ha.
  - intros Hi Hd Ha Hl. split; intros Hp; run_cbv; rewrite Hi, Hd, Ha, Hl, Hp.
    + repeat split.
    + split; [reflexivity|]. split; [reflexivity|].
      cbn [trace]. now rewrite <- app_assoc.
  - destruct (ipfs_ok env) eqn:Hi, (db_ok env) eqn:Hd, (add_ok env) eqn:Ha,
      (libp2p_up env) eqn:Hl, (publish_ok env "debros-app-data") eqn:Hp;
      run_cbv; rewrite ?Hi, ?Hd, ?Ha, ?Hl, ?Hp; run_cbv.
    all: split;
      [ intros [Hlog Hne];
        try (exfalso; now apply Hgrow);
        try (exfalso; now apply Hne);
        repeat split
      | intros (H1 & H2 & H3 & H4 & H5);
        first [ discriminate | split; [reflexivity | discriminate] ] ].
Qed.

Lemma storeAppData_outcomes_witness :
  (fst (storeAppData env_mute blog_draft w_blog) = Throw (publish_err env_mute) /\
   log (snd (storeAppData env_mute blog_draft w_blog)) =
   log w_blog ++ [blog_draft] /\
   trace (snd (storeAppData env_mute blog_draft w_blog)) =
   trace w_blog ++ [EAppend blog_draft]) /\
  (fst (storeAppData env0 blog_draft w_blog) = Ok true /\
   log (snd (storeAppData env0 blog_draft w_blog)) =
   log w_blog ++ [blog_draft] /\
   trace (snd (storeAppData env0 blog_draft w_blog)) =
   trace w_blog ++
     [EAppend blog_draft;
      EPublish "debros-app-data"
        (MAppDataUpdate blog_draft (clock env0 (ticks w_blog)))]).
Proof.
  pose proof (storeAppData_outcomes env_mute blog_draft w_blog)
    as (_ & _ & _ & _ & _ & _ & _ & _ & Hmute & _).
  pose proof (storeAppData_outcomes env0 blog_draft w_blog)
    as (_ & _ & _ & _ & _ & _ & _ & _ & Hok & _).
  split.
  - apply (Hmute eq_refl eq_refl eq_refl eq_refl). reflexivity.
  - apply (Hok eq_refl eq_refl eq_refl eq_refl). reflexivity.
Defined.

(** ** A tag that was used several times *)

Lemma find_in_descending (p : VersionEntry -> bool) (l : list VersionEntry)
  (x : VersionEntry) :
  descending l -> find p l = Some x ->
  In x l /\ p x = true /\
  forall y, In y l -> p y = true -> vtimestamp y <= vtimestamp x.
Proof.
  unfold descending. induction 1 as [|a l Hs IH Hall]; simpl; [discriminate|].
  destruct (p a) eqn:E.
  - intros H. inversion H; subst. repeat split; auto.
    intros y [<-|Hy] _; [lia|].
    rewrite Forall_forall in Hall. now apply Hall.
  - intros H. destruct (IH H) as (Hin & Hp & Hmax). repeat split; auto.
    intros y [<-|Hy] Hpy; [congruence | auto].
Qed.

Lemma getAppVersions_pure_descending (name : string) (entries : list AppData) :
  descending (getAppVersions_pure name entries).
Proof.
  eapply descending_by_keys;
    [symmetry; apply markLatestDeployed_keys | apply sortedVersions_descending].
Qed.

Lemma getAppVersions_pure_In (name : string) (entries : list AppData)
  (v : VersionEntry) :
  In v (getAppVersions_pure name entries) ->
  exists e, In e entries /\ appName e = name /\ versionKey v = versionKey (toVersion e).
Proof.
  intros H. apply (in_map versionKey) in H.
  unfold getAppVersions_pure in H. rewrite markLatestDeployed_keys in H.
  apply in_map_iff in H. destruct H as (u & Hk & Hu).
  apply sortedVersions_In in Hu. destruct Hu as (e & He & Hn & ->).
  exists e. auto.
Qed.

Lemma startApplication_run (env : Env) (name tag0 : string) (w : World)
  (target : VersionEntry) :
  available env ->
  find (fun v => String.eqb (tag v) tag0) (getAppVersions_pure name (log w)) =
  Some target ->
  exists w',
    startApplication env name (Some tag0) w = (Ok succeeded, w') /\
    log w' = log w ++
      [ {| appName := name; cid := vcid target; version := tag0;
           timestamp := clock env (S (ticks w)); deployed := true;
           domain := Some (or_else
                             match find_app name (getAllApps_pure (log w)) with
                             | Some a => domain a
                             | None => None
                             end (name ++ "." ++ defaultDomain env));
           status := running; isRollback := None |} ].
Proof.
  intros Hav Hfind. eexists. env_ok Hav.
  destruct (getAppVersions_pure name (log w)) as [|v0 vs] eqn:Ev;
    [discriminate|].
  rewrite Hfind. simpl Nat.eqb. run_cbv. split; reflexivity.
Qed.

(** X10. A tag used for several uploads stands for the newest of them.
    With every collaborator available, [startApplication] with a tag that
    some event of the application bears appends an event whose CID is that
    of an event of the application bearing the tag, and no event of the
    application bearing the tag is newer than that one. *)
Theorem start_resolves_newest_tag (env : Env) (name tag0 : string) (w : World) :
  available env ->
  (exists e0, In e0 (log w) /\ appName e0 = name /\ version e0 = tag0) ->
  exists w' e src,
    startApplication env name (Some tag0) w = (Ok succeeded, w') /\
    log w' = log w ++ [e] /\
    appName e = name /\ version e = tag0 /\ cid e = cid src /\
    deployed e = true /\ status e = running /\
    In src (log w) /\ appName src = name /\ version src = tag0 /\
    (forall e', In e' (log w) -> appName e' = name -> version e' = tag0 ->
                timestamp e' <= timestamp src).
Proof.
  intros Hav (e0 & Hin0 & Hn0 & Hv0).
  set (versions := getAppVersions_pure name (log w)).
  assert (Hmem : forall e', In e' (log w) -> appName e' = name ->
                 exists v, In v versions /\ versionKey v = versionKey (toVersion e')).
  { intros e' Hin Hn.
    assert (Hs : In (toVersion e') (sortedVersions name (log w)))
      by (apply sortedVersions_In; eauto).
    apply (in_map versionKey) in Hs.
    rewrite <- markLatestDeployed_keys in Hs.
    apply in_map_iff in Hs. destruct Hs as (v & Hk & Hv). eauto. }
  destruct (find (fun v => String.eqb (tag v) tag0) versions) as [target|] eqn:F.
  - destruct (find_in_descending _ _ _
                (getAppVersions_pure_descending name (log w)) F)
      as (Hint & Htag & Hmax).
    apply String.eqb_eq in Htag.
    destruct (getAppVersions_pure_In _ _ _ Hint) as (src & Hsrc & Hsn & Hk).
    unfold versionKey in Hk. simpl in Hk. inversion Hk as [[Ht Hc Hts]].
    destruct (startApplication_run env name tag0 w target Hav F)
      as (w' & Hrun & Hlog).
    exists w'. eexists. exists src.
    split; [exact Hrun|]. split; [exact Hlog|]. simpl.
    repeat split; auto; try congruence.
    intros e' Hin Hn Hv.
    destruct (Hmem e' Hin Hn) as (v & Hv' & Hkv).
    unfold versionKey in Hkv. simpl in Hkv. inversion Hkv as [[Ht' Hc' Hts']].
    assert (vtimestamp v <= vtimestamp target).
    { apply Hmax; auto. apply String.eqb_eq. congruence. }
    lia.
  - exfalso. destruct (Hmem e0 Hin0 Hn0) as (v & Hv & Hk).
    apply (find_none _ _ F) in Hv.
    unfold versionKey in Hk. simpl in Hk. inversion Hk as [[Ht Hc Hts]].
    apply String.eqb_neq in Hv. congruence.
Qed.

Lemma start_resolves_newest_tag_witness :
  exists w' e src,
    startApplication env0 "blog" (Some "v1") w_blog = (Ok succeeded, w') /\
    log w' = log w_blog ++ [e] /\
    appName e = "blog" /\ version e = "v1" /\ cid e = cid src /\
    deployed e = true /\ status e = running /\
    In src (log w_blog) /\ appName src = "blog" /\ version src = "v1" /\
    (forall e', In e' (log w_blog) -> appName e' = "blog" -> version e' = "v1" ->
                timestamp e' <= timestamp src).
Proof.
  apply (start_resolves_newest_tag env0 "blog" "v1" w_blog).
  - unfold available. simpl. repeat split.
  - exists blog_v1. repeat split. simpl. auto.
Defined.

(** ** Every event the CLI writes is marked deployed *)






(** ** The logger *)

Lemma replay_app (spin : bool) (a b : list Screen) :
  replay spin (a ++ b) =
  match replay spin a with Some spin' => replay spin' b | None => None end.
Proof.
  revert spin. induction a as [|x a IH]; intros spin; simpl; auto.
  destruct x, spin; auto.
Qed.

Lemma logger_call_replay (envVar : option string) (c : LoggerCall)
  (t : Terminal) :
  replay false (screen t) = Some (is_some (spinner t)) ->
  replay false (screen (logger_call envVar c t)) =
  Some (is_some (spinner (logger_call envVar c t))).
Proof.
  intros H. destruct c as [level|text|text|text ok|kind message0]; simpl; auto.
  - unfold startSpinner. simpl. rewrite replay_app, H.
    destruct (spinner t); reflexivity.
  - unfold updateSpinner. destruct (spinner t) eqn:E; simpl; auto.
    now rewrite E.
  - unfold stopSpinner. destruct (spinner t) eqn:E; simpl.
    + rewrite replay_app, H. simpl.
      destruct (default_arg ok true && truthy text); [reflexivity|].
      destruct (negb (default_arg ok true) && truthy text); reflexivity.
    + now rewrite E.
  - unfold logger. destruct (prints envVar kind t); auto. simpl.
    rewrite replay_app, H.
    destruct (spinner t); destruct kind; reflexivity.
Qed.

(** X12. Lines never cross a spinning spinner.  After any sequence of calls
    of [setLogLevel], [startSpinner], [updateSpinner], [stopSpinner] and the
    logger methods, starting with no spinner, no console line was printed
    while a spinner was spinning, no spinner was started while another was
    spinning, and a spinner spins at the end exactly when the module holds
    one. *)
Theorem logger_never_crosses_spinner (envVar : option string)
  (calls : list LoggerCall) :
  replay false (screen (logger_calls envVar calls terminal0)) =
  Some (is_some (spinner (logger_calls envVar calls terminal0))).
Proof.
  unfold logger_calls.
  assert (H : replay false (screen terminal0) = Some (is_some (spinner terminal0)))
    by reflexivity.
  revert H. generalize terminal0.
  induction calls as [|c calls IH]; intros t H; simpl; auto.
  apply IH. now apply logger_call_replay.
Qed.



(** ** The configuration *)

Lemma loadConfig_covers_defaults (defaults : Obj) (d : Disk) (k : string) :
  fst (loadConfig defaults d) k = None -> defaults k = None.
Proof.
  unfold loadConfig, spread. destruct (file d) as [| |props]; simpl; auto.
  destruct (props k); [discriminate | auto].
Qed.

(** X14. Updating the configuration and loading it again.  [updateConfig]
    returns the loaded configuration with the one key set and every other
    key as [loadConfig] gives it.  On a writable disk a following
    [loadConfig] returns exactly that configuration; on a disk that cannot
    be written the update is lost without an error: the file is as before
    and [loadConfig] returns what it returned before.  In every case the
    loaded configuration defines every key the defaults define, the file's
    value taking precedence. *)
Theorem updateConfig_then_load (defaults : Obj) (key : string) (value : Json)
  (d : Disk) :
  let updated := fst (updateConfig defaults key value d) in
  let d' := snd (updateConfig defaults key value d) in
  updated key = Some value /\
  (forall k, k <> key -> updated k = fst (loadConfig defaults d) k) /\
  (writable d = true ->
   forall k, fst (loadConfig defaults d') k = updated k) /\
  (writable d = false ->
   file d' = file d /\
   forall k, fst (loadConfig defaults d') k = fst (loadConfig defaults d) k) /\
  (forall k v, defaults k = Some v ->
     fst (loadConfig defaults d) k =
     match file d with
     | Holds props => match props k with Some v' => Some v' | None => Some v end
     | _ => Some v
     end).
Proof.
  cbv zeta. unfold updateConfig.
  destruct (loadConfig defaults d) as [current d1] eqn:Hload. simpl.
  assert (Hcur : current = fst (loadConfig defaults d)) by now rewrite Hload.
  assert (Hd1 : d1 = snd (loadConfig defaults d)) by now rewrite Hload.
  split; [|split; [|split; [|split]]].
  - unfold obj_set. now rewrite String.eqb_refl.
  - intros k Hne. unfold obj_set. apply String.eqb_neq in Hne. now rewrite Hne.
  - intros Hw k.
    assert (Hw1 : writable d1 = true).
    { rewrite Hd1. unfold loadConfig, saveConfig.
      destruct (file d); simpl; auto. now rewrite Hw. }
    unfold saveConfig. rewrite Hw1. unfold loadConfig, spread. simpl.
    destruct (obj_set key value current k) eqn:E; auto.
    unfold obj_set in E. destruct (String.eqb k key); [discriminate|].
    subst current. now apply loadConfig_covers_defaults in E.
  - intros Hw.
    assert (Hsame : d1 = d).
    { rewrite Hd1. unfold loadConfig, saveConfig.
      destruct (file d); simpl; auto. now rewrite Hw. }
    rewrite Hsame. unfold saveConfig. rewrite Hw.
    split; [reflexivity | intros k; now rewrite Hload].
  - intros k v Hdef. rewrite Hcur. unfold loadConfig, spread.
    destruct (file d) as [| |props]; simpl; auto.
    destruct (props k); auto.
Qed.

Lemma updateConfig_then_load_witness :
  fst (loadConfig (defaultConfig "/home/u/.debros/ipfs" "/home/u/.debros/ipns")
         (snd (updateConfig
                 (defaultConfig "/home/u/.debros/ipfs" "/home/u/.debros/ipns")
                 "defaultDomain" (JStr "example.sol")
                 {| file := Absent; writable := true |}))) "defaultDomain" =
  fst (updateConfig
         (defaultConfig "/home/u/.debros/ipfs" "/home/u/.debros/ipns")
         "defaultDomain" (JStr "example.sol")
         {| file := Absent; writable := true |}) "defaultDomain".
Proof.
  exact (proj1 (proj2 (proj2
           (updateConfig_then_load
              (defaultConfig "/home/u/.debros/ipfs" "/home/u/.debros/ipns")
              "defaultDomain" (JStr "example.sol")
              {| file := Absent; writable := true |})))
           eq_refl "defaultDomain").
Defined.

(** ** Image names *)

Lemma prefix_append (p s : string) : String.prefix p (p ++ s) = true.
Proof.
  induction p as [|c p IH]; simpl.
  - now destruct s.
  - destruct (ascii_dec c c); [exact IH | contradiction].
Qed.

Lemma append_assoc (a b c : string) :
  ((a ++ b) ++ c)%string = (a ++ b ++ c)%string.
Proof.
  induction a as [|x a IH]; simpl; auto. now rewrite IH.
Qed.

Lemma prefix_split (p s : string) :
  String.prefix p s = true -> exists rest, s = (p ++ rest)%string.
Proof.
  revert s. induction p as [|c p IH]; intros s H.
  - exists s. reflexivity.
  - destruct s as [|c' s]; simpl in H; [discriminate|].
    destruct (ascii_dec c c') as [->|]; [|discriminate].
    destruct (IH s H) as [rest ->]. exists rest. reflexivity.
Qed.

(** X15. What is built is listed.  [listDebrosImages] keeps an image exactly
    when one of its tags starts with [<registry>/]; it keeps the order of
    the images and drops those without tags.  Every name that
    [buildDockerImage] gives an image, whatever the image name and tag,
    makes the image listed. *)
Theorem built_images_are_listed (dockerRegistry : string) (images : list Image)
  (image : Image) :
  (In image (debrosImages dockerRegistry images) <->
   In image images /\
   exists tags t rest,
     RepoTags image = Some tags /\ In t tags /\
     t = (dockerRegistry ++ "/" ++ rest)%string) /\
  (forall imageName tag0 tags,
     In image images -> RepoTags image = Some tags ->
     In (fullImageName dockerRegistry imageName tag0) tags ->
     In image (debrosImages dockerRegistry images)) /\
  (forall other, debrosImages dockerRegistry (images ++ other) =
                 debrosImages dockerRegistry images ++
                 debrosImages dockerRegistry other).
Proof.
  assert (Hiff : In image (debrosImages dockerRegistry images) <->
                 In image images /\
                 exists tags t rest,
                   RepoTags image = Some tags /\ In t tags /\
                   t = (dockerRegistry ++ "/" ++ rest)%string).
  { unfold debrosImages. rewrite filter_In. split.
    - intros [Hin Hkeep]. split; auto.
      destruct (RepoTags image) as [tags|]; [|discriminate].
      apply existsb_exists in Hkeep. destruct Hkeep as (t & Ht & Hp).
      apply prefix_split in Hp. destruct Hp as [rest ->].
      exists tags, ((dockerRegistry ++ "/") ++ rest)%string, rest.
      repeat split; auto. apply append_assoc.
    - intros [Hin (tags & t & rest & Htags & Ht & ->)]. split; auto.
      rewrite Htags. apply existsb_exists.
      exists (dockerRegistry ++ "/" ++ rest)%string. split; auto.
      unfold startsWith.
      rewrite <- append_assoc. apply prefix_append. }
  split; [exact Hiff|]. split.
  - intros imageName tag0 tags Hin Htags Hname. apply Hiff. split; auto.
    exists tags, (fullImageName dockerRegistry imageName tag0),
      (imageName ++ ":" ++ default_arg tag0 "latest")%string.
    repeat split; auto.
  - intros other. unfold debrosImages. apply filter_app.
Qed.

Lemma built_images_are_listed_witness :
  In {| RepoTags := Some ["debros/blog:latest"]; Id := "sha256:1" |}
    (debrosImages "debros"
       [ {| RepoTags := None; Id := "sha256:0" |};
         {| RepoTags := Some ["debros/blog:latest"]; Id := "sha256:1" |} ]).
Proof.
  apply (built_images_are_listed "debros"
           [ {| RepoTags := None; Id := "sha256:0" |};
             {| RepoTags := Some ["debros/blog:latest"]; Id := "sha256:1" |} ]
           {| RepoTags := Some ["debros/blog:latest"]; Id := "sha256:1" |})
    with (imageName := "blog") (tag0 := None) (tags := ["debros/blog:latest"]).
  - simpl. auto.
  - reflexivity.
  - simpl. auto.
Defined.

(** ** Domain names *)

Lemma split_dot_head_dotless (s : string) :
  forall i, String.get i (split_dot_head s) <> Some "."%char.
Proof.
  induction s as [|c s IH]; intros i; simpl.
  - destruct i; discriminate.
  - destruct (Ascii.eqb c ".") eqn:E.
    + destruct i; discriminate.
    + destruct i; simpl; auto.
      intros H. inversion H; subst. now rewrite Ascii.eqb_refl in E.
Qed.

Lemma substring_split (k : nat) (s : string) :
  (k <= String.length s)%nat ->
  s = (substring 0 k s ++ substring k (String.length s - k) s)%string.
Proof.
  revert s. induction k as [|k IH]; intros s H.
  - rewrite Nat.sub_0_r, substring_all. now destruct s.
  - destruct s as [|c s]; simpl in *; [lia|].
    rewrite <- IH by lia. reflexivity.
Qed.

Lemma endsWith_split (s suffix : string) :
  endsWith s suffix = true ->
  s = (substring 0 (String.length s - String.length suffix) s ++ suffix)%string.
Proof.
  unfold endsWith. intros H. apply andb_true_iff in H. destruct H as [Hle Heq].
  apply Nat.leb_le in Hle. apply String.eqb_eq in Heq.
  transitivity
    (substring 0 (String.length s - String.length suffix) s ++
     substring (String.length s - String.length suffix)
       (String.length s - (String.length s - String.length suffix)) s)%string;
    [apply substring_split; lia|].
  f_equal.
  replace (String.length s - (String.length s - String.length suffix))%nat
    with (String.length suffix) by lia.
  exact Heq.
Qed.

Lemma split_dot_head_split (a b : string) :
  exists rest,
    (a ++ String "." b)%string =
    (split_dot_head (a ++ String "." b) ++ String "." rest)%string.
Proof.
  induction a as [|c a [rest IH]]; simpl.
  - now exists b.
  - destruct (Ascii.eqb c ".") eqn:E.
    + apply Ascii.eqb_eq in E. subst c. now exists (a ++ String "." b)%string.
    + exists rest. simpl. now rewrite <- IH.
Qed.

(** X16. The [.sol] suffix of the domain commands.  The name the [domain]
    subcommands work with is the given name if that ends in [.sol], and the
    given name followed by [.sol] if it does not; so it always ends in
    [.sol], and ensuring twice changes nothing more.  The key name
    [domain setup] derives from it is the part of the ensured name before
    its first dot: it holds no dot, and the ensured name is the key name,
    a dot, and a rest. *)
Theorem ensureSol_idempotent (domainName : string) :
  endsWith (ensureSol domainName) ".sol" = true /\
  (endsWith domainName ".sol" = true -> ensureSol domainName = domainName) /\
  ensureSol (ensureSol domainName) = ensureSol domainName /\
  (forall i, String.get i (setupAppName domainName) <> Some "."%char) /\
  (endsWith domainName ".sol" = false ->
   ensureSol domainName = (domainName ++ ".sol")%string) /\
  (forall stem, domainName = (stem ++ ".sol")%string ->
                ensureSol domainName = domainName) /\
  ((forall stem, domainName <> (stem ++ ".sol")%string) ->
   ensureSol domainName = (domainName ++ ".sol")%string) /\
  (exists stem, ensureSol domainName = (stem ++ ".sol")%string) /\
  (exists rest,
     ensureSol domainName = (setupAppName domainName ++ "." ++ rest)%string).
Proof.
  assert (H1 : endsWith (ensureSol domainName) ".sol" = true).
  { unfold ensureSol. destruct (endsWith domainName ".sol") eqn:E; simpl; auto.
    apply endsWith_append. }
  assert (H2 : exists stem, ensureSol domainName = (stem ++ ".sol")%string).
  { eexists. apply endsWith_split. exact H1. }
  split; [exact H1|]. split; [|split; [|split; [|split; [|split; [|split; [|split]]]]]].
  - intros H. unfold ensureSol. now rewrite H.
  - unfold ensureSol at 1. now rewrite H1.
  - apply split_dot_head_dotless.
  - intros H. unfold ensureSol. now rewrite H.
  - intros stem ->. unfold ensureSol. now rewrite endsWith_append.
  - intros Hno. unfold ensureSol.
    destruct (endsWith domainName ".sol") eqn:E; simpl; auto.
    apply endsWith_split in E. now apply Hno in E.
  - exact H2.
  - unfold setupAppName. destruct H2 as [stem ->].
    apply (split_dot_head_split stem "sol").
Qed.

Lemma ensureSol_idempotent_witness :
  ensureSol "myapp" = "myapp.sol" /\
  ensureSol "myapp.debros.sol" = "myapp.debros.sol" /\
  ensureSol "my.app.sol" = "my.app.sol".
Proof.
  split; [|split].
  - exact (proj1 (proj2 (proj2 (proj2 (proj2 (ensureSol_idempotent "myapp")))))
             eq_refl).
  - exact (proj1 (proj2 (ensureSol_idempotent "myapp.debros.sol")) eq_refl).
  - exact (proj1 (proj2 (proj2 (proj2 (proj2 (proj2
             (ensureSol_idempotent "my.app.sol"))))))
             "my.app" eq_refl).
Defined.

Lemma substring_length (m : nat) (s : string) :
  (m <= String.length s)%nat -> String.length (substring 0 m s) = m.
Proof.
  revert s. induction m as [|m IH]; intros s H.
  - now destruct s.
  - destruct s as [|c s]; simpl in *; [lia|]. rewrite IH; lia.
Qed.

Lemma append_inv_head (p a b : string) :
  (p ++ a)%string = (p ++ b)%string -> a = b.
Proof.
  induction p as [|c p IH]; simpl; auto. intros H. inversion H. auto.
Qed.

Lemma lower_length (s : string) : String.length (lower s) = String.length s.
Proof.
  induction s as [|c s IH]; simpl; auto.
Qed.

Lemma lower_substring (k m : nat) (s : string) :
  lower (substring k m s) = substring k m (lower s).
Proof.
  revert k m. induction s as [|c s IH]; intros k m.
  - destruct k, m; reflexivity.
  - destruct k as [|k]; [destruct m as [|m]|]; simpl; auto.
    now rewrite IH.
Qed.

(** X17. The host [deployToK3s] routes and the URL it returns.  For a name
    without a trailing [.debros.sol] (in any letter case) the ingress host
    is [<name>.<defaultDomain>]; for a name that ends so, it is the name
    cut before that suffix, followed by [.<defaultDomain>].  It is the very
    domain [uploadCommand] stores in the event of that name when no
    [--domain] is given.  The returned URL names that host exactly when the
    name bears no such suffix; for a name that ends in [.debros.sol] the
    URL keeps the suffix and names another host. *)
Theorem ingress_host_and_url (env : Env) (name : string) :
  (endsWith (lower name) ".debros.sol" = false ->
   ingressHost env name = (name ++ "." ++ defaultDomain env)%string) /\
  (endsWith (lower name) ".debros.sol" = true ->
   exists stem suffix,
     name = (stem ++ suffix)%string /\ lower suffix = ".debros.sol" /\
     ingressHost env name = (stem ++ "." ++ defaultDomain env)%string) /\
  endsWith (ingressHost env name) ("." ++ defaultDomain env) = true /\
  (deployedUrl env name = ("http://" ++ ingressHost env name)%string <->
   endsWith (lower name) ".debros.sol" = false) /\
  (forall folderBase optName optTag cid0 w,
     available env ->
     or_else optName folderBase = name ->
     ~ used name (log w) ->
     exists w' e,
       uploadCommand env true folderBase optName optTag None (Ok cid0) w =
       (Ok tt, w') /\
       log w' = log w ++ [e] /\
       appName e = name /\ cid e = cid0 /\
       domain e = Some (ingressHost env name)).
Proof.
  split; [|split; [|split; [|split]]].
  - intros E. unfold ingressHost, strip_debros_sol. now rewrite E.
  - intros E.
    assert (Hlen : (11 <= String.length name)%nat).
    { unfold endsWith in E. apply andb_true_iff in E. destruct E as [E _].
      apply Nat.leb_le in E. simpl in E. rewrite lower_length in E. lia. }
    exists (substring 0 (String.length name - 11) name),
      (substring (String.length name - 11) 11 name).
    split; [|split].
    + rewrite (substring_split (String.length name - 11) name) at 1 by lia.
      do 2 f_equal. lia.
    + rewrite lower_substring.
      unfold endsWith in E. apply andb_true_iff in E. destruct E as [_ E].
      apply String.eqb_eq in E. rewrite lower_length in E. exact E.
    + unfold ingressHost, strip_debros_sol. now rewrite E.
  - unfold ingressHost. apply (endsWith_append _ ("." ++ defaultDomain env)).
  - unfold deployedUrl, ingressHost, strip_debros_sol.
    destruct (endsWith (lower name) ".debros.sol") eqn:E.
    + split; [|discriminate]. intros H. exfalso.
      apply (append_inv_head "http://") in H.
      apply (f_equal String.length) in H. rewrite !length_append in H.
      assert (Hlen : (11 <= String.length name)%nat).
      { unfold endsWith in E. apply andb_true_iff in E. destruct E as [E _].
        apply Nat.leb_le in E. simpl in E. rewrite lower_length in E. lia. }
      rewrite substring_length in H by lia. lia.
    + split; auto.
  - intros folderBase optName optTag cid0 w Hav Hname Hfree.
    pose proof Hav as (Hi & Hl & Hd & Ha & Hp).
    apply available_iff_unused in Hfree.
    assert (Hdom : or_else (Some (ingressHost env name))
                     (name ++ "." ++ defaultDomain env) = ingressHost env name)
      by (apply or_else_given, dotted_nonempty).
    assert (Hends : endsWith (ingressHost env name) ("." ++ defaultDomain env)
                    = true)
      by apply endsWith_append.
    do 2 eexists. unfold uploadCommand. run_cbv.
    rewrite ?Hi, ?Hl, ?Hd, ?Ha, ?Hp. run_cbv.
    rewrite Hname, Hfree. run_cbv.
    change (or_else None name) with name.
    change (strip_debros_sol name ++ "." ++ defaultDomain env)%string
      with (ingressHost env name).
    rewrite Hdom, Hends. run_cbv.
    split; [reflexivity|]. split; [reflexivity|]. repeat split.
Qed.

Lemma ingress_host_and_url_witness :
  (ingressHost env0 "blog" = ("blog" ++ "." ++ defaultDomain env0)%string /\
   deployedUrl env0 "blog" = ("http://" ++ ingressHost env0 "blog")%string) /\
  (exists stem suffix,
     "Shop.DeBros.SOL" = (stem ++ suffix)%string /\
     lower suffix = ".debros.sol" /\
     ingressHost env0 "Shop.DeBros.SOL" =
     (stem ++ "." ++ defaultDomain env0)%string) /\
  (exists w' e,
     uploadCommand env0 true "shop" None None None (Ok "cidX") w_blog =
     (Ok tt, w') /\
     log w' = log w_blog ++ [e] /\
     appName e = "shop" /\ cid e = "cidX" /\
     domain e = Some (ingressHost env0 "shop")).
Proof.
  split; [split|split].
  - exact (proj1 (ingress_host_and_url env0 "blog") eq_refl).
  - exact (proj2 (proj1 (proj2 (proj2 (proj2 (ingress_host_and_url env0 "blog")))))
             eq_refl).
  - exact (proj1 (proj2 (ingress_host_and_url env0 "Shop.DeBros.SOL")) eq_refl).
  - apply (proj2 (proj2 (proj2 (proj2 (ingress_host_and_url env0 "shop"))))
             "shop" None None "cidX" w_blog).
    + unfold available. simpl. repeat split.
    + reflexivity.
    + intros (e & [<-|[<-|[]]] & He); discriminate.
Defined.

(** ** From the image name back to the application name *)

Lemma split_pop_from_sep (sep : ascii) (acc a b : string) :
  split_pop_from sep acc (a ++ String sep b) = split_pop_from sep "" b.
Proof.
  revert acc. induction a as [|c a IH]; intros acc; simpl.
  - now rewrite Ascii.eqb_refl.
  - destruct (Ascii.eqb c sep); apply IH.
Qed.

Lemma split_pop_from_free (sep : ascii) (acc s : string) :
  has_char sep s = false -> split_pop_from sep acc s = (acc ++ s)%string.
Proof.
  revert acc. induction s as [|c s IH]; intros acc H; simpl in *.
  - clear. induction acc; simpl; congruence.
  - apply orb_false_iff in H. destruct H as [Hc Hs]. rewrite Hc.
    rewrite IH by assumption. apply append_assoc.
Qed.

Lemma split_head_sep (sep : ascii) (a b : string) :
  has_char sep a = false -> split_head sep (a ++ String sep b) = a.
Proof.
  induction a as [|c a IH]; simpl; intros H.
  - now rewrite Ascii.eqb_refl.
  - apply orb_false_iff in H. destruct H as [Hc Ha]. rewrite Hc.
    now rewrite IH.
Qed.

Lemma has_char_append (c : ascii) (a b : string) :
  has_char c (a ++ b) = has_char c a || has_char c b.
Proof.
  induction a as [|x a IH]; simpl; auto. rewrite IH. apply orb_assoc.
Qed.

(** X18. The name survives the image.  From the name [buildDockerImage]
    gives an image, [<registry>/<imageName>:<tag>], the [deploy] command
    derives the application name [<imageName>] again, whatever the
    registry, provided the image name is not empty and holds neither [/]
    nor [:] and the tag holds no [/].  In every case the derived name is
    not empty: without an option and a usable image name it is "app". *)
Theorem deploy_recovers_name (dockerRegistry imageName : string)
  (tag0 : option string) (optName : option string) (loadedImage : string) :
  deployAppName optName loadedImage <> "" /\
  (imageName <> "" ->
   has_char "/" imageName = false -> has_char ":" imageName = false ->
   has_char "/" (default_arg tag0 "latest") = false ->
   deployAppName None (fullImageName dockerRegistry imageName tag0) = imageName).
Proof.
  split.
  - unfold deployAppName. apply or_else_nonempty, or_else_nonempty. discriminate.
  - intros Hne Hslash Hcolon Htag. unfold deployAppName, fullImageName, split_pop.
    change (dockerRegistry ++ "/" ++ imageName ++ ":" ++ default_arg tag0 "latest")%string
      with (dockerRegistry ++
            String "/" (imageName ++ ":" ++ default_arg tag0 "latest"))%string.
    rewrite split_pop_from_sep.
    rewrite split_pop_from_free.
    + change ("" ++ imageName ++ ":" ++ default_arg tag0 "latest")%string
        with (imageName ++ String ":" (default_arg tag0 "latest"))%string.
      rewrite split_head_sep by assumption.
      rewrite (or_else_given imageName "app" Hne). reflexivity.
    + rewrite has_char_append, Hslash. simpl. exact Htag.
Qed.

Lemma deploy_recovers_name_witness :
  deployAppName None (fullImageName "debros" "blog" (Some "v1")) = "blog".
Proof.
  apply (deploy_recovers_name "debros" "blog" (Some "v1") None "");
    [discriminate | reflexivity | reflexivity | reflexivity].
Defined.

(** ** The configuration after [init] *)

Lemma updateConfig_writable (defaults : Obj) (key : string) (value : Json)
  (d : Disk) :
  writable (snd (updateConfig defaults key value d)) = writable d.
Proof.
  unfold updateConfig, loadConfig, saveConfig.
  destruct (file d), (writable d) eqn:Hw; simpl; rewrite ?Hw; simpl; auto.
Qed.

Lemma updateConfig_unwritable (defaults : Obj) (key : string) (value : Json)
  (d : Disk) :
  writable d = false -> snd (updateConfig defaults key value d) = d.
Proof.
  intros Hw. unfold updateConfig, loadConfig, saveConfig.
  destruct (file d); simpl; rewrite ?Hw; simpl; rewrite ?Hw; auto.
Qed.

Lemma updateConfig_load (defaults : Obj) (key : string) (value : Json)
  (d : Disk) (k : string) :
  writable d = true ->
  fst (loadConfig defaults (snd (updateConfig defaults key value d))) k =
  obj_set key value (fst (loadConfig defaults d)) k.
Proof.
  intros Hw. unfold updateConfig, loadConfig, saveConfig.
  destruct (file d) as [| |props]; simpl; rewrite ?Hw; simpl;
    unfold spread, obj_set; destruct (String.eqb k key); try reflexivity;
    try (destruct (props k); try reflexivity);
    destruct (defaults k); reflexivity.
Qed.

(** X19. What [init] leaves in the configuration.  On a writable disk,
    after the four updates of the [init] command, [loadConfig] gives the
    four answers under their keys and every other key as it gave it
    before; on a disk that cannot be written the configuration it gives is
    unchanged. *)
Theorem initConfigure_then_load (defaults : Obj)
  (defaultDomain0 dockerRegistry0 strategy0 solanaEndpoint0 : Json) (d : Disk) :
  let d' := initConfigure defaults defaultDomain0 dockerRegistry0 strategy0
              solanaEndpoint0 d in
  (writable d = true ->
   forall k,
     fst (loadConfig defaults d') k =
     if String.eqb k "solanaEndpoint" then Some solanaEndpoint0
     else if String.eqb k "defaultDeploymentStrategy" then Some strategy0
     else if String.eqb k "dockerRegistry" then Some dockerRegistry0
     else if String.eqb k "defaultDomain" then Some defaultDomain0
     else fst (loadConfig defaults d) k) /\
  (writable d = false ->
   forall k, fst (loadConfig defaults d') k = fst (loadConfig defaults d) k).
Proof.
  cbv zeta. unfold initConfigure. split; intros Hw k.
  - repeat (rewrite updateConfig_load
              by (rewrite ?updateConfig_writable; exact Hw);
            unfold obj_set).
    reflexivity.
  - rewrite !updateConfig_unwritable
      by (rewrite ?updateConfig_writable; exact Hw).
    reflexivity.
Qed.

Lemma initConfigure_then_load_witness :
  fst (loadConfig (defaultConfig "/home/u/.debros/ipfs" "/home/u/.debros/ipns")
         (initConfigure
            (defaultConfig "/home/u/.debros/ipfs" "/home/u/.debros/ipns")
            (JStr "example.sol") (JStr "acme") (JStr "k3s")
            (JStr "https://rpc.example") {| file := Absent; writable := true |}))
    "dockerRegistry" =
  Some (JStr "acme").
Proof.
  exact (proj1
           (initConfigure_then_load
              (defaultConfig "/home/u/.debros/ipfs" "/home/u/.debros/ipns")
              (JStr "example.sol") (JStr "acme") (JStr "k3s")
              (JStr "https://rpc.example") {| file := Absent; writable := true |})
           eq_refl "dockerRegistry").
Defined.
